(** * fastmcp: resource templates and the Claude configuration upsert

    A shallow embedding of
    - [src/fastmcp/resources/templates.py] ([ResourceTemplate]: [from_function],
      [matches], [create_resource]), and
    - [src/fastmcp/cli/claude.py] ([get_claude_config_path],
      [update_claude_config]),
    together with the properties the specification states about them.

    Python strings are modelled as lists of 8-bit characters in the template
    part (where the proofs go by induction on the text) and as [string] in the
    configuration part (where they are dictionary keys). *)

From Stdlib Require Import Ascii String.
From stdpp Require Import base list strings gmap.

Set Default Proof Using "Type".
Local Set Warnings "-register-all".

Definition str := list ascii.

(** [L "text"] is the character list of a literal. *)
Definition L (s : string) : str := list_ascii_of_string s.

Definition nl : ascii := "010"%char.
Definition slash : ascii := "/"%char.

(** Outcome of a Python call that may raise: [E] is the type of exceptions. *)
Inductive result (E A : Type) :=
| Return (a : A)
| Raise (e : E).
Arguments Return {E A} a.
Arguments Raise {E A} e.

(** ** The fragment of Python's [re] that [matches] relies on

    [ResourceTemplate.matches] builds a pattern by textual substitution and
    hands it to [re.match].  The regular-expression language of [re] is
    modelled for the constructs below; a pattern that uses anything else
    (alternation, backslash escapes, counted repeats, ranges in sets, lazy or
    possessive repeats, repeated groups, extension groups other than
    [(?P<name>...)], non-ASCII group names) is given no meaning: [compile]
    answers [NotModelled] and nothing is claimed about it. *)
Module Re.

Inductive atom :=
| ALit (c : ascii)                    (* an ordinary character *)
| AAny                                (* [.]: any character but newline *)
| ASet (neg : bool) (cs : list ascii) (* [[...]] and [[^...]] *).

Inductive quant := QOne | QOpt | QStar | QPlus.

Inductive node :=
| NAtom (a : atom) (q : quant)
| NBol                                (* [^] *)
| NEol                                (* [$] *)
| NGroup (name : option str) (body : list node).

(** The messages of [re.error] that the fragment can produce. *)
Inductive error :=
| MissingGroupName        (* "missing group name" *)
| UnterminatedName        (* "missing >, unterminated name" *)
| BadGroupName (n : str)  (* "bad character in group name" *)
| Redefinition (n : str)  (* "redefinition of group name" *)
| UnterminatedSubpattern  (* "missing ), unterminated subpattern" *)
| UnbalancedParenthesis   (* "unbalanced parenthesis" *)
| NothingToRepeat         (* "nothing to repeat" *)
| UnterminatedSet         (* "unterminated character set" *)
| UnexpectedEnd           (* "unexpected end of pattern" *).

(** *** Parsing (sre_parse) *)

(** SPECIAL_CHARS of sre_parse. *)
Definition special_chars : str := L ".\[{()*+?^$|".

Definition is_special (c : ascii) : bool :=
  existsb (Ascii.eqb c) special_chars.

Definition is_upper (c : ascii) : bool :=
  (65 <=? nat_of_ascii c) && (nat_of_ascii c <=? 90).
Definition is_lower (c : ascii) : bool :=
  (97 <=? nat_of_ascii c) && (nat_of_ascii c <=? 122).
Definition is_digit (c : ascii) : bool :=
  (48 <=? nat_of_ascii c) && (nat_of_ascii c <=? 57).
Definition is_ascii (c : ascii) : bool := nat_of_ascii c <? 128.

Definition ident_start (c : ascii) : bool :=
  is_upper c || is_lower c || Ascii.eqb c "_".
Definition ident_char (c : ascii) : bool := ident_start c || is_digit c.

(** [str.isidentifier] on ASCII text. *)
Definition isidentifier (s : str) : bool :=
  match s with
  | [] => false
  | c :: r => ident_start c && forallb ident_char r
  end.

Definition mem (n : str) (ns : list str) : bool :=
  bool_decide (n ∈ ns).

Inductive mode :=
| MNormal
| MOpen                          (* read "(" *)
| MOpenQ                         (* read "(?" *)
| MOpenQP                        (* read "(?P" *)
| MName (acc : str)              (* read "(?P<" and [acc] of the name *)
| MSetOpen                       (* read "[" *)
| MSet (neg : bool) (acc : str)  (* inside a set, members so far *).

(** An enclosing sequence, suspended while a group body is parsed. *)
Record frame := Frame { fname : option str; fprev : list node }.

(** [pcur] is the current sequence, last item first; [pnames] is the
    pattern's [groupindex] in order of definition. *)
Record pstate := PState {
  pmode : mode;
  pcur : list node;
  pstack : list frame;
  pnames : list str
}.

Inductive progress :=
| Running (st : pstate)
| Failed (e : error)
| Unsupported.

Definition repeat_of (c : ascii) : option quant :=
  if Ascii.eqb c "?" then Some QOpt
  else if Ascii.eqb c "*" then Some QStar
  else if Ascii.eqb c "+" then Some QPlus
  else None.

Definition push (n : node) (st : pstate) : progress :=
  Running (PState MNormal (n :: pcur st) (pstack st) (pnames st)).

(** One character of a sequence ([_parse]'s main loop). *)
Definition step_normal (st : pstate) (c : ascii) : progress :=
  match repeat_of c with
  | Some q =>
      match pcur st with
      | [] | NBol :: _ | NEol :: _ => Failed NothingToRepeat
      | NAtom a QOne :: r =>
          Running (PState MNormal (NAtom a q :: r) (pstack st) (pnames st))
      | NAtom _ _ :: _ | NGroup _ _ :: _ => Unsupported
      end
  | None =>
      if negb (is_special c) then push (NAtom (ALit c) QOne) st
      else if Ascii.eqb c "." then push (NAtom AAny QOne) st
      else if Ascii.eqb c "^" then push NBol st
      else if Ascii.eqb c "$" then push NEol st
      else if Ascii.eqb c "[" then
        Running (PState MSetOpen (pcur st) (pstack st) (pnames st))
      else if Ascii.eqb c "(" then
        Running (PState MOpen (pcur st) (pstack st) (pnames st))
      else if Ascii.eqb c ")" then
        match pstack st with
        | [] => Failed UnbalancedParenthesis
        | f :: fs =>
            Running (PState MNormal
                       (NGroup (fname f) (rev (pcur st)) :: fprev f)
                       fs (pnames st))
        end
      else Unsupported
  end.

Definition open_group (name : option str) (st : pstate) : pstate :=
  PState MNormal [] (Frame name (pcur st) :: pstack st)
    (match name with Some n => pnames st ++ [n] | None => pnames st end).

Definition step_set (st : pstate) (neg : bool) (acc : str) (c : ascii)
  : progress :=
  if Ascii.eqb c "]" && negb (bool_decide (acc = [])) then
    push (NAtom (ASet neg acc) QOne) st
  else if Ascii.eqb c "-" || Ascii.eqb c "\" then Unsupported
  else Running (PState (MSet neg (acc ++ [c])) (pcur st) (pstack st) (pnames st)).

Definition step (st : pstate) (c : ascii) : progress :=
  match pmode st with
  | MNormal => step_normal st c
  | MOpen =>
      if Ascii.eqb c "?" then
        Running (PState MOpenQ (pcur st) (pstack st) (pnames st))
      else step_normal (open_group None st) c
  | MOpenQ =>
      if Ascii.eqb c "P" then
        Running (PState MOpenQP (pcur st) (pstack st) (pnames st))
      else Unsupported
  | MOpenQP =>
      if Ascii.eqb c "<" then
        Running (PState (MName []) (pcur st) (pstack st) (pnames st))
      else Unsupported
  | MName acc =>
      if Ascii.eqb c ">" then
        if bool_decide (acc = []) then Failed MissingGroupName
        else if negb (forallb is_ascii acc) then Unsupported
        else if negb (isidentifier acc) then Failed (BadGroupName acc)
        else if mem acc (pnames st) then Failed (Redefinition acc)
        else Running (open_group (Some acc) st)
      else if Ascii.eqb c "\" then Unsupported
      else Running (PState (MName (acc ++ [c])) (pcur st) (pstack st) (pnames st))
  | MSetOpen =>
      if Ascii.eqb c "^" then
        Running (PState (MSet true []) (pcur st) (pstack st) (pnames st))
      else step_set st false [] c
  | MSet neg acc => step_set st neg acc c
  end.

Fixpoint run (p : progress) (s : str) : progress :=
  match s with
  | [] => p
  | c :: r =>
      match p with
      | Running st => run (step st c) r
      | _ => p
      end
  end.

Inductive compiled :=
| Compiled (nodes : list node) (names : list str)
| CompileError (e : error)
| NotModelled.

(** What the end of the pattern means in each state. *)
Definition finish (p : progress) : compiled :=
  match p with
  | Failed e => CompileError e
  | Unsupported => NotModelled
  | Running st =>
      match pmode st with
      | MNormal =>
          match pstack st with
          | [] => Compiled (rev (pcur st)) (pnames st)
          | _ :: _ => CompileError UnterminatedSubpattern
          end
      | MOpen => CompileError UnterminatedSubpattern
      | MOpenQ | MOpenQP => CompileError UnexpectedEnd
      | MName [] => CompileError MissingGroupName
      | MName (_ :: _) => CompileError UnterminatedName
      | MSetOpen | MSet _ _ => CompileError UnterminatedSet
      end
  end.

Definition init : pstate := PState MNormal [] [] [].

(** A backslash anywhere takes the pattern out of the fragment: the
    tokenizer of sre_parse reads escapes one token ahead. *)
Definition compile (pattern : str) : compiled :=
  if existsb (Ascii.eqb "\") pattern then NotModelled
  else finish (run (Running init) pattern).

(** *** Matching (backtracking, greedy repeats)

    A matcher returns every way to continue, most preferred first; the
    engine takes the first one that reaches the end of the pattern. *)

Definition atom_ok (a : atom) (c : ascii) : bool :=
  match a with
  | ALit d => Ascii.eqb c d
  | AAny => negb (Ascii.eqb c nl)
  | ASet neg cs => xorb neg (existsb (Ascii.eqb c) cs)
  end.

(** Length of the longest prefix of [s] made of characters [a] accepts. *)
Fixpoint run_len (a : atom) (s : str) : nat :=
  match s with
  | c :: r => if atom_ok a c then S (run_len a r) else 0
  | [] => 0
  end.

(** Numbers of characters a repeated atom may take, in order of
    preference. *)
Definition rep_counts (a : atom) (q : quant) (s : str) : list nat :=
  match q with
  | QOne => if 1 <=? run_len a s then [1] else []
  | QOpt => if 1 <=? run_len a s then [1; 0] else [0]
  | QStar => rev (seq 0 (S (run_len a s)))
  | QPlus => rev (seq 1 (run_len a s))
  end.

(** [$] without MULTILINE: at the end, or just before a final newline. *)
Definition at_end (s : str) : bool :=
  match s with
  | [] => true
  | [c] => Ascii.eqb c nl
  | _ => false
  end.

Definition caps := list (str * str).

Definition set_group (name : option str) (v : str) (g : caps) : caps :=
  match name with
  | Some n => (n, v) :: g
  | None => g
  end.

(** A position in the subject: offset, remaining text, groups so far. *)
Definition mstate : Type := nat * str * caps.

Fixpoint mnode (n : node) (pos : nat) (s : str) (g : caps) : list mstate :=
  match n with
  | NAtom a q => map (fun k => (pos + k, drop k s, g)) (rep_counts a q s)
  | NBol => if pos =? 0 then [(pos, s, g)] else []
  | NEol => if at_end s then [(pos, s, g)] else []
  | NGroup name body =>
      map (fun '(p1, s1, g1) =>
             (p1, s1, set_group name (take (p1 - pos) s) g1))
        ((fix mseq (ns : list node) (pos : nat) (s : str) (g : caps)
            : list mstate :=
            match ns with
            | [] => [(pos, s, g)]
            | n' :: ns' =>
                flat_map (fun '(p1, s1, g1) => mseq ns' p1 s1 g1)
                  (mnode n' pos s g)
            end) body pos s g)
  end.

Fixpoint mseq (ns : list node) (pos : nat) (s : str) (g : caps)
  : list mstate :=
  match ns with
  | [] => [(pos, s, g)]
  | n :: ns' =>
      flat_map (fun '(p1, s1, g1) => mseq ns' p1 s1 g1) (mnode n pos s g)
  end.

Fixpoint lookup_group (n : str) (g : caps) : option str :=
  match g with
  | [] => None
  | (m, v) :: r => if bool_decide (n = m) then Some v else lookup_group n r
  end.

(** [Match.groupdict()]: every named group, in order of definition, with
    the text it matched ([None] if it took no part in the match). *)
Definition groupdict (names : list str) (g : caps) : list (str * option str) :=
  map (fun n => (n, lookup_group n g)) names.

(** [re.match(pattern, string)]: [None] outside the fragment, otherwise
    the error raised by compilation, or the group dictionary of the match,
    or Python's [None] when the pattern does not match at the start. *)
Definition re_match (pattern subject : str)
  : option (result error (option (list (str * option str)))) :=
  match compile pattern with
  | NotModelled => None
  | CompileError e => Some (Raise e)
  | Compiled nodes names =>
      match mseq nodes 0 subject [] with
      | [] => Some (Return None)
      | (_, _, g) :: _ => Some (Return (Some (groupdict names g)))
      end
  end.

End Re.

(** [str.replace(old, new)] for a one-character [old]. *)
Fixpoint replace_char (old : ascii) (new : str) (s : str) : str :=
  match s with
  | [] => []
  | c :: r => (if Ascii.eqb c old then new else [c]) ++ replace_char old new r
  end.


(** ** Python values of the template module *)

(** An exception object: its class, whether the class derives from
    [Exception] (and not only from [BaseException]), [str(e)], and
    [__context__], the exception that was being handled when it was raised. *)
Inductive exn :=
| Exn (cls : str) (is_exception : bool) (text : str) (context : option exn).

Definition exc_class (e : exn) : str := let 'Exn c _ _ _ := e in c.
Definition exc_is_Exception (e : exn) : bool := let 'Exn _ b _ _ := e in b.
Definition exc_str (e : exn) : str := let 'Exn _ _ t _ := e in t.
Definition exc_context (e : exn) : option exn := let 'Exn _ _ _ c := e in c.

Definition ValueError (msg : str) (context : option exn) : exn :=
  Exn (L "ValueError") true msg context.
Definition AttributeError (msg : str) : exn :=
  Exn (L "AttributeError") true msg None.
(** pydantic's [ValidationError], a subclass of [ValueError]. *)
Definition ValidationError (details : str) : exn :=
  Exn (L "ValidationError") true details None.

Module Templates.
Section Model.

(** [V]: Python values that are not coroutines.  [W]: the state of
    everything outside the template module that a producer may read or
    change (what makes a producer non-deterministic). *)
Variables V W : Type.

(** pydantic, used through two entry points only: the signature of a
    callable [Sig], [TypeAdapter(func).json_schema()], and the argument
    validation that [validate_call] puts in front of a call (it answers
    the coerced arguments, or the details of the validation error). *)
Variables Sig Schema : Type.
Variable json_schema : Sig -> result exn Schema.
Variable validate : Sig -> list (str * V) -> result str (list (str * V)).

Definition kwargs : Type := list (str * V).

(** What a call returns: a plain value, or a coroutine object that yields
    its value when awaited. *)
Inductive pyobj :=
| Obj (v : V)
| Coroutine (body : W -> result exn pyobj * W).

(** The world seen by the model: the external state and the log of the
    invocations of producers (one entry per call of a producer's body). *)
Record world := World { ext : W; calls : list kwargs }.

(** A Python callable: [__name__] (absent on some callables), [__doc__],
    its declared signature, and its body. *)
Record callable := Callable {
  fn_name : option str;
  fn_doc : option str;
  fn_sig : Sig;
  fn_body : kwargs -> W -> result exn pyobj * W
}.

(** Calling the producer itself. *)
Definition invoke (f : callable) (args : kwargs) (w : world)
  : result exn pyobj * world :=
  let '(r, e) := fn_body f args (ext w) in
  (r, World e (calls w ++ [args])).

(** [validate_call(func)]: arguments are validated and coerced before the
    body runs; when validation fails the body does not run. *)
Definition validate_call (f : callable) (params : kwargs) (w : world)
  : result exn pyobj * world :=
  match validate (fn_sig f) params with
  | Raise details => (Raise (ValidationError details), w)
  | Return args => invoke f args w
  end.

(** [await c]. *)
Definition await (body : W -> result exn pyobj * W) (w : world)
  : result exn pyobj * world :=
  let '(r, e) := body (ext w) in (r, World e (calls w)).

Record ResourceTemplate := Template {
  uri_template : str;
  name : str;
  description : option str;
  mime_type : str;
  func : kwargs -> world -> result exn pyobj * world;
  parameters : Schema
}.

(** Modelled from the spec: [FunctionResource] of
    [fastmcp.resources.types], which is not among the sources.  The spec
    describes a Resource as [uri], [name], [description], [mimeType] and a
    zero-argument accessor for the content; the constructor stores its
    arguments as they are. *)
Record Resource := FunctionResource {
  r_uri : str;
  r_name : str;
  r_description : option str;
  r_mime_type : str;
  r_func : world -> result exn pyobj * world
}.

(** Python's [x or y] on optional strings: [None] and [""] are falsy. *)
Definition truthy_str (o : option str) : option str :=
  match o with
  | Some (c :: s) => Some (c :: s)
  | _ => None
  end.

Definition lambda_name : str := L "<lambda>".

Definition from_function (f : callable) (uri_template : str)
    (name description mime_type : option str)
  : result exn ResourceTemplate :=
  let func_name :=
    match truthy_str name with
    | Some n => Return n
    | None =>
        match fn_name f with
        | Some n => Return n
        | None => Raise (AttributeError (L "__name__"))
        end
    end in
  match func_name with
  | Raise e => Raise e
  | Return func_name =>
      if bool_decide (func_name = lambda_name) then
        Raise (ValueError (L "You must provide a name for lambda functions")
                 None)
      else
        match json_schema (fn_sig f) with
        | Raise e => Raise e
        | Return parameters =>
            Return
              (Template uri_template func_name
                 (Some (match truthy_str description with
                        | Some d => d
                        | None =>
                            match truthy_str (fn_doc f) with
                            | Some d => d
                            | None => []
                            end
                        end))
                 (match truthy_str mime_type with
                  | Some m => m
                  | None => L "text/plain"
                  end)
                 (validate_call f)
                 parameters)
        end
  end.

(** The pattern [matches] builds from the template. *)
Definition pattern_of (template : str) : str :=
  replace_char "}" (L ">[^/]+)") (replace_char "{" (L "(?P<") template).

(** [matches]: [None] when the pattern leaves the modelled fragment of
    [re]; otherwise what the method does: raise [re.error], return the
    group dictionary, or return Python's [None]. *)
Definition matches (t : ResourceTemplate) (uri : str)
  : option (result Re.error (option (list (str * option str)))) :=
  Re.re_match (L "^" ++ pattern_of (uri_template t) ++ L "$") uri.

Definition wrap_message : str := L "Error creating resource from template: ".

(** The [except Exception as e] clause of [create_resource]: exceptions
    that derive from [Exception] are replaced by a [ValueError] raised
    while [e] is being handled; the others pass through. *)
Definition handle {A : Type} (e : exn) : result exn A :=
  if exc_is_Exception e then
    Raise (ValueError (wrap_message ++ exc_str e) (Some e))
  else Raise e.

(** [if inspect.iscoroutine(result): result = await result]. *)
Definition settle (o : pyobj) (w : world) : result exn pyobj * world :=
  match o with
  | Coroutine body => await body w
  | Obj _ => (Return o, w)
  end.

Definition create_resource (t : ResourceTemplate) (uri : str)
    (params : kwargs) (w : world) : result exn Resource * world :=
  match func t params w with
  | (Raise e, w1) => (handle e, w1)
  | (Return result, w1) =>
      match settle result w1 with
      | (Raise e, w2) => (handle e, w2)
      | (Return result, w2) =>
          (Return (FunctionResource uri (name t) (description t)
                     (mime_type t) (fun w' => (Return result, w'))),
           w2)
      end
  end.

(** The producer's own run: its body, then the await when the body
    answered a coroutine. *)
Definition run_producer (f : callable) (args : kwargs) (w : world)
  : result exn pyobj * world :=
  match invoke f args w with
  | (Return result, w1) => settle result w1
  | (Raise e, w1) => (Raise e, w1)
  end.

End Model.
End Templates.

Arguments Templates.Obj {V W} v.
Arguments Templates.Coroutine {V W} body.
Arguments Templates.World {V W} ext calls.
Arguments Templates.ext {V W} w.
Arguments Templates.calls {V W} w.
Arguments Templates.Callable {V W Sig} fn_name fn_doc fn_sig fn_body.
Arguments Templates.fn_name {V W Sig} c.
Arguments Templates.fn_doc {V W Sig} c.
Arguments Templates.fn_sig {V W Sig} c.
Arguments Templates.fn_body {V W Sig} c.
Arguments Templates.Template {V W Schema}.
Arguments Templates.uri_template {V W Schema} r.
Arguments Templates.name {V W Schema} r.
Arguments Templates.description {V W Schema} r.
Arguments Templates.mime_type {V W Schema} r.
Arguments Templates.func {V W Schema} r.
Arguments Templates.parameters {V W Schema} r.
Arguments Templates.FunctionResource {V W}.
Arguments Templates.r_uri {V W} r.
Arguments Templates.r_name {V W} r.
Arguments Templates.r_description {V W} r.
Arguments Templates.r_mime_type {V W} r.
Arguments Templates.r_func {V W} r.
Arguments Templates.invoke {V W Sig} f args w.
Arguments Templates.validate_call {V W Sig} validate f params w.
Arguments Templates.await {V W} body w.
Arguments Templates.settle {V W} o w.
Arguments Templates.run_producer {V W Sig} f args w.
Arguments Templates.from_function {V W Sig Schema} json_schema validate f
  uri_template name description mime_type.
Arguments Templates.matches {V W Schema} t uri.
Arguments Templates.handle {A} e.
Arguments Templates.create_resource {V W Schema} t uri params w.

(** ** Well-formed templates and their instances

    A template string is a leading literal followed by placeholders, each
    with the literal text that follows it. *)
Module Shape.

Record shape := Shape { lead : str; slots : list (str * str) }.

Definition placeholders (T : shape) : list str := map fst (slots T).

(** The template string. *)
Definition render (T : shape) : str :=
  lead T ++ flat_map (fun '(n, l) => L "{" ++ n ++ L "}" ++ l) (slots T).

(** Substituting [vs], in order, for the placeholders. *)
Fixpoint fill_slots (sl : list (str * str)) (vs : list str) : str :=
  match sl, vs with
  | (_, l) :: sl', v :: vs' => v ++ l ++ fill_slots sl' vs'
  | _, _ => []
  end.

Definition fill (T : shape) (vs : list str) : str :=
  lead T ++ fill_slots (slots T) vs.

(** A value a placeholder may stand for: non-empty and without [/]. *)
Definition segment (v : str) : Prop := v <> [] /\ ~ In slash v.

(** [vs] gives one value per placeholder. *)
Definition assignment (T : shape) (vs : list str) : Prop :=
  length vs = length (slots T) /\ Forall segment vs.

(** Literal text that the regular-expression syntax reads as itself. *)
Definition plain (c : ascii) : bool :=
  negb (Re.is_special c) && negb (Ascii.eqb c "}").

(** Plain literal text and identifiers as placeholder names. *)
Definition spelled (T : shape) : Prop :=
  forallb plain (lead T) = true
  /\ Forall (fun sl => Re.isidentifier (fst sl) = true
                       /\ forallb plain (snd sl) = true) (slots T).

Definition wf (T : shape) : Prop :=
  spelled T /\ NoDup (placeholders T).

(** [wf], decided. *)
Definition wfb (T : shape) : bool :=
  forallb plain (lead T)
  && forallb (fun sl => Re.isidentifier (fst sl) && forallb plain (snd sl))
       (slots T)
  && bool_decide (NoDup (placeholders T)).

Definition segmentb (v : str) : bool :=
  negb (bool_decide (v = [])) && negb (existsb (Ascii.eqb slash) v).

(** Every two consecutive placeholders have a [/] between them. *)
Fixpoint separated (sl : list (str * str)) : Prop :=
  match sl with
  | [] => True
  | (_, l) :: sl' => (sl' = [] \/ In slash l) /\ separated sl'
  end.

(** The match result that binds the placeholders to [vs]. *)
Definition bindings (T : shape) (vs : list str) : list (str * option str) :=
  zip (placeholders T) (map Some vs).

Definition ends_with_newline (u : str) : Prop := last u = Some nl.

End Shape.

(** ** What a well-formed template compiles to *)

(** The pattern text of a placeholder and the literal after it. *)
Definition slot_pattern (sl : str * str) : str :=
  L "(?P<" ++ fst sl ++ L ">[^/]+)" ++ snd sl.

(** The pattern handed to [re.match] for a template. *)
Definition anchored (template : str) : str :=
  L "^" ++ Templates.pattern_of template ++ L "$".

Definition lits (l : str) : list Re.node :=
  map (fun c => Re.NAtom (Re.ALit c) Re.QOne) l.

Definition hole (n : str) : Re.node :=
  Re.NGroup (Some n) [Re.NAtom (Re.ASet true [slash]) Re.QPlus].

Definition slot_nodes (sl : str * str) : list Re.node :=
  hole (fst sl) :: lits (snd sl).

Definition nodes_of (T : Shape.shape) : list Re.node :=
  Re.NBol :: lits (Shape.lead T) ++ flat_map slot_nodes (Shape.slots T)
    ++ [Re.NEol].

(** ** A concrete instance

    A small stand-in for pydantic (string and integer parameters, decimal
    coercion) and a few producers, on which the properties below are
    exercised. *)
Module Demo.

Inductive value := VStr (s : str) | VInt (n : Z) | VNone.
Inductive ty := TStr | TInt.

Definition signature : Type := list (str * ty).
Definition schema : Type := list (str * ty).

Definition json_schema (sg : signature) : result exn schema := Return sg.

Definition digit_value (c : ascii) : option Z :=
  if Re.is_digit c then Some (Z.of_nat (nat_of_ascii c) - 48)%Z else None.

Fixpoint digits (acc : Z) (s : str) : option Z :=
  match s with
  | [] => Some acc
  | c :: r =>
      match digit_value c with
      | Some d => digits (10 * acc + d)%Z r
      | None => None
      end
  end.

Definition parse_int (s : str) : option Z :=
  match s with
  | [] => None
  | c :: r =>
      if Ascii.eqb c "-" then
        match r with [] => None | _ => Z.opp <$> digits 0 r end
      else digits 0 s
  end.

Definition coerce (t : ty) (v : value) : option value :=
  match t, v with
  | TStr, VStr s => Some (VStr s)
  | TInt, VInt n => Some (VInt n)
  | TInt, VStr s => VInt <$> parse_int s
  | _, _ => None
  end.

Fixpoint find (n : str) (kw : list (str * value)) : option value :=
  match kw with
  | [] => None
  | (m, v) :: r => if bool_decide (n = m) then Some v else find n r
  end.

Fixpoint validate (sg : signature) (kw : list (str * value))
  : result str (list (str * value)) :=
  match sg with
  | [] => Return []
  | (n, t) :: sg' =>
      match find n kw with
      | None => Raise (L "missing argument: " ++ n)
      | Some v =>
          match coerce t v with
          | None => Raise (L "invalid value for " ++ n)
          | Some v' =>
              match validate sg' kw with
              | Return args => Return ((n, v') :: args)
              | Raise d => Raise d
              end
          end
      end
  end.

(** The external state is a counter. *)
Abbreviation pyobj := (Templates.pyobj value nat).
Abbreviation callable := (Templates.callable value nat signature).
Abbreviation template := (Templates.ResourceTemplate value nat schema).
Abbreviation world := (Templates.world value nat).

Definition from_function :
  callable -> str -> option str -> option str -> option str
  -> result exn template :=
  Templates.from_function json_schema validate.

Definition w0 : world := Templates.World 0 [].

Definition sunny : pyobj := Templates.Obj (VStr (L "sunny")).

(** [def get_weather(city: str) -> str: return "sunny"] *)
Definition get_weather : callable :=
  Templates.Callable (Some (L "get_weather")) (Some (L "Weather of a city."))
    [(L "city", TStr)]
    (fun _ w => (Return sunny, w)).

(** The same as a coroutine function. *)
Definition get_weather_async : callable :=
  Templates.Callable (Some (L "get_weather_async")) None
    [(L "city", TStr)]
    (fun _ w => (Return (Templates.Coroutine (fun w' => (Return sunny, w'))), w)).

(** A producer whose answer changes with every call. *)
Definition ticket : callable :=
  Templates.Callable (Some (L "ticket")) None
    [(L "queue", TStr)]
    (fun _ w => (Return (Templates.Obj (VInt (Z.of_nat w))), S w)).

(** [def item(id: int) -> str: return "item"] *)
Definition item : callable :=
  Templates.Callable (Some (L "item")) None
    [(L "id", TInt)]
    (fun _ w => (Return (Templates.Obj (VStr (L "item"))), w)).

(** A producer that raises. *)
Definition broken : callable :=
  Templates.Callable (Some (L "broken")) None
    [(L "id", TStr)]
    (fun _ w => (Raise (Exn (L "RuntimeError") true (L "boom") None), w)).

(** A producer that itself raises a validation error. *)
Definition picky : callable :=
  Templates.Callable (Some (L "picky")) None
    [(L "id", TStr)]
    (fun _ w => (Raise (ValidationError (L "invalid value for id")), w)).

(** [lambda city: "sunny"] *)
Definition anonymous : callable :=
  Templates.Callable (Some (L "<lambda>")) None
    [(L "city", TStr)]
    (fun _ w => (Return sunny, w)).

(** The keyword arguments a match result provides. *)
Definition params_of (d : list (str * option str)) : list (str * value) :=
  map (fun '(n, o) =>
         (n, match o with Some s => VStr s | None => VNone end)) d.

(** The template [from_function] builds when it succeeds (a template with
    an empty name otherwise). *)
Definition template_of (f : callable) (uri_template : str) : template :=
  match from_function f uri_template None None None with
  | Return t => t
  | Raise _ =>
      Templates.Template uri_template [] None []
        (fun _ w => (Raise (ValueError [] None), w)) []
  end.

Definition weather_shape : Shape.shape :=
  Shape.Shape (L "weather://") [(L "city", L "/current")].

Definition weather_template : template :=
  template_of get_weather (L "weather://{city}/current").

Definition weather_uri : str := L "weather://paris/current".

(** The keyword arguments extracted from [weather_uri]. *)
Definition paris : list (str * value) :=
  params_of [(L "city", Some (L "paris"))].

Definition ticket_template : template :=
  template_of ticket (L "ticket://{queue}").

Definition item_template : template := template_of item (L "item://{id}").
Definition picky_template : template := template_of picky (L "item://{id}").
Definition broken_template : template := template_of broken (L "item://{id}").

(** The keyword arguments extracted from [item://abc]. *)
Definition abc : list (str * value) := params_of [(L "id", Some (L "abc"))].

(** The resource of a resolution (an empty one when it fails). *)
Definition resource_of (t : template) (uri : str) (params : list (str * value))
    (w : world) : Templates.Resource value nat :=
  match Templates.create_resource t uri params w with
  | (Return r, _) => r
  | (Raise _, _) =>
      Templates.FunctionResource [] [] None [] (fun w' => (Return sunny, w'))
  end.

Definition world_after (t : template) (uri : str)
    (params : list (str * value)) (w : world) : world :=
  snd (Templates.create_resource t uri params w).

End Demo.

(** ** The Claude configuration upsert ([fastmcp/cli/claude.py]) *)
Module Claude.

Open Scope string_scope.

(** What [json.loads] returns.  A JSON object is a finite map: the order of
    its keys only shows in the layout of the text written back.  Numbers
    are the integers. *)
Inductive json :=
| JNull
| JBool (b : bool)
| JNum (n : Z)
| JStr (s : string)
| JArr (xs : list json)
| JObj (m : gmap string json).

(** *** Python's dynamic operations on such values

    [None] stands for a raised exception ([TypeError], [KeyError],
    [OSError], a JSON decoding error): inside the [try] block of
    [update_claude_config] they are all caught alike. *)

Fixpoint is_substring (needle hay : string) : bool :=
  String.prefix needle hay
  || match hay with
     | String _ r => is_substring needle r
     | EmptyString => false
     end.

Definition is_str (k : string) (v : json) : bool :=
  match v with
  | JStr s => String.eqb s k
  | _ => false
  end.

(** [k in container] *)
Definition py_contains (k : string) (container : json) : option bool :=
  match container with
  | JObj m => Some (bool_decide (is_Some (m !! k)))
  | JArr xs => Some (existsb (is_str k) xs)
  | JStr s => Some (is_substring k s)
  | JNull | JBool _ | JNum _ => None
  end.

(** [container[k]] for a string [k] *)
Definition py_getitem (container : json) (k : string) : option json :=
  match container with
  | JObj m => m !! k
  | _ => None
  end.

(** [container[k] = v] for a string [k] *)
Definition py_setitem (container : json) (k : string) (v : json)
  : option json :=
  match container with
  | JObj m => Some (JObj (<[k := v]> m))
  | _ => None
  end.

Definition truthy (v : json) : bool :=
  match v with
  | JNull => false
  | JBool b => b
  | JNum n => negb (n =? 0)%Z
  | JStr s => negb (String.eqb s "")
  | JArr xs => negb (bool_decide (length xs = 0))
  | JObj m => negb (bool_decide (size m = 0))
  end.

(** The [env_vars] argument as a Python value. *)
Definition env_value (env_vars : option (gmap string string)) : json :=
  match env_vars with
  | None => JNull
  | Some m => JObj (JStr <$> m)
  end.

(** [{**existing_env, **env_vars}] for a dictionary [env_vars]: the
    existing value has to be a mapping; the new entries win. *)
Definition merge_env (existing_env : json) (env_vars : gmap string string)
  : option json :=
  match existing_env with
  | JObj e => Some (JObj ((JStr <$> env_vars) ∪ e))
  | _ => None
  end.

(** [s.rsplit(sep, 1)] when [sep] occurs in [s]. *)
Fixpoint rsplit1 (sep : ascii) (s : string) : option (string * string) :=
  match s with
  | EmptyString => None
  | String c r =>
      match rsplit1 sep r with
      | Some (a, b) => Some (String c a, b)
      | None => if Ascii.eqb c sep then Some (EmptyString, r) else None
      end
  end.

(** *** The host and its file system *)

Definition path : Type := list string.

Inductive entry :=
| Dir
| File (content : option json)  (* [None]: unreadable, or not JSON *)
| Denied                        (* probing the path fails *).

Record filesystem := FS {
  entries : gmap path entry;
  read_only : bool
}.

(** [sys.platform], [Path.home()] ([None] when the home directory cannot
    be determined: [Path.home()] raises [RuntimeError]) and
    [str(Path(p).resolve())] ([None] when it raises). *)
Record host := Host {
  platform : string;
  home : option path;
  resolve : string -> option string
}.

(** The exceptions raised outside the [try] block. *)
Inductive probe_error :=
| HomeUndetermined   (* [RuntimeError] of [Path.home()] *)
| ProbeFailed        (* [OSError] of [Path.exists()] *).

(** [p.exists()] *)
Definition exists_ (fs : filesystem) (p : path) : result probe_error bool :=
  match entries fs !! p with
  | None => Return false
  | Some Denied => Raise ProbeFailed
  | Some _ => Return true
  end.

(** [json.loads(p.read_text())] *)
Definition read_json (fs : filesystem) (p : path) : option json :=
  match entries fs !! p with
  | Some (File (Some j)) => Some j
  | _ => None
  end.

(** [p.write_text(json.dumps(j, indent=2))] *)
Definition write_json (fs : filesystem) (p : path) (j : json)
  : option filesystem :=
  match entries fs !! p with
  | Some Dir | Some Denied => None
  | _ =>
      if read_only fs then None
      else Some (FS (<[p := File (Some j)]> (entries fs)) (read_only fs))
  end.

Definition config_name : string := "claude_desktop_config.json".

Definition get_claude_config_path (h : host) (fs : filesystem)
  : result probe_error (option path) :=
  let candidate :=
    if String.eqb (platform h) "win32" then
      Some ["AppData"; "Roaming"; "Claude"]
    else if String.eqb (platform h) "darwin" then
      Some ["Library"; "Application Support"; "Claude"]
    else None in
  match candidate with
  | None => Return None
  | Some below_home =>
      match home h with
      | None => Raise HomeUndetermined
      | Some hm =>
          let path := (hm ++ below_home)%list in
          match exists_ fs path with
          | Raise e => Raise e
          | Return true => Return (Some path)
          | Return false => Return None
          end
      end
  end.

(** The [uv run] command line, up to the file to run. *)
Definition uv_args (with_editable : option string)
    (with_packages : option (list string)) : list string :=
  let args := ["run"; "--with"; "fastmcp"] in
  let args :=
    match with_editable with
    | Some dir => (args ++ ["--with-editable"; dir])%list
    | None => args
    end in
  match with_packages with
  | Some pkgs =>
      (args ++ flat_map (fun pkg => if String.eqb pkg "" then []
                                    else ["--with"; pkg]) pkgs)%list
  | None => args
  end.

(** [file_spec] made absolute, an [:object] suffix split off first. *)
Definition absolute_spec (h : host) (file_spec : string) : option string :=
  match rsplit1 ":" file_spec with
  | Some (file_path, server_object) =>
      p ← resolve h file_path; Some (p +:+ ":" +:+ server_object)
  | None => resolve h file_spec
  end.

(** The entry of the server: command, arguments and, when [env_vars] is
    truthy, the environment. *)
Definition server_config (args : list string) (env_vars : json)
  : gmap string json :=
  let server_config : gmap string json :=
    <["args" := JArr (JStr <$> args)]> {["command" := JStr "uv"]} in
  if truthy env_vars then <["env" := env_vars]> server_config
  else server_config.

(** The body of the [try] block: the file system after the write, or
    [None] when anything raised. *)
Definition try_update (h : host) (config_file : path)
    (file_spec server_name : string)
    (with_editable : option string) (with_packages : option (list string))
    (env_vars : option (gmap string string)) (fs : filesystem)
  : option filesystem :=
  config ← read_json fs config_file;
  missing ← negb <$> py_contains "mcpServers" config;
  config ← (if missing : bool then py_setitem config "mcpServers" (JObj ∅)
            else Some config);
  (* Always preserve existing env vars and merge with new ones *)
  servers ← py_getitem config "mcpServers";
  known ← py_contains server_name servers;
  has_env ← (if known : bool then
               entry ← py_getitem servers server_name;
               py_contains "env" entry
             else Some false);
  env_vars ← (if has_env : bool then
                entry ← py_getitem servers server_name;
                existing_env ← py_getitem entry "env";
                match env_vars with
                | Some new =>
                    if truthy (env_value env_vars)
                    then merge_env existing_env new
                    else Some existing_env
                | None => Some existing_env
                end
              else Some (env_value env_vars));
  (* Build uv run command *)
  let args := uv_args with_editable with_packages in
  file_spec ← absolute_spec h file_spec;
  (* Add fastmcp run command *)
  let args := (args ++ ["fastmcp"; "run"; file_spec])%list in
  servers ← py_getitem config "mcpServers";
  servers ← py_setitem servers server_name
              (JObj (server_config args env_vars));
  config ← py_setitem config "mcpServers" servers;
  write_json fs config_file config.

Definition update_claude_config (h : host) (file_spec server_name : string)
    (with_editable : option string) (with_packages : option (list string))
    (env_vars : option (gmap string string)) (fs : filesystem)
  : result probe_error (bool * filesystem) :=
  match get_claude_config_path h fs with
  | Raise e => Raise e
  | Return None => Return (false, fs)
  | Return (Some config_dir) =>
      let config_file := (config_dir ++ [config_name])%list in
      match exists_ fs config_file with
      | Raise e => Raise e
      | Return false => Return (false, fs)
      | Return true =>
          match try_update h config_file file_spec server_name
                  with_editable with_packages env_vars fs with
          | Some fs' => Return (true, fs')
          | None => Return (false, fs)
          end
      end
  end.

(** The entry written for a server whose environment is [env]. *)
Definition written (env : json) (entry' : gmap string json) : Prop :=
  exists base : gmap string json,
    base !! "env" = None
    /\ entry' = if truthy env then <["env" := env]> base else base.

(** *** Reading a configuration *)

(** The servers of a configuration (none when there is no such table). *)
Definition servers_of (config : option json) : gmap string json :=
  match config with
  | Some (JObj c) =>
      match c !! "mcpServers" with
      | Some (JObj s) => s
      | _ => ∅
      end
  | _ => ∅
  end.

(** The environment variables stored for a server. *)
Definition env_of (servers : gmap string json) (server_name : string)
  : gmap string json :=
  match servers !! server_name with
  | Some (JObj e) =>
      match e !! "env" with
      | Some (JObj m) => m
      | _ => ∅
      end
  | _ => ∅
  end.

(** The other top-level settings of a configuration. *)
Definition settings_of (config : option json) : gmap string json :=
  match config with
  | Some (JObj c) => delete "mcpServers" c
  | _ => ∅
  end.

(** *** A concrete host *)

Definition mac : host :=
  Host "darwin" (Some ["Users"; "ada"]) (fun p => Some ("/abs/" +:+ p)).

Definition mac_config_file : path :=
  ["Users"; "ada"; "Library"; "Application Support"; "Claude";
   "claude_desktop_config.json"].

Definition mac_claude_dir : path :=
  ["Users"; "ada"; "Library"; "Application Support"; "Claude"].

Definition old_config : json :=
  JObj (<["theme" := JStr "dark"]>
          {["mcpServers" :=
              JObj (<["other" := JObj {["command" := JStr "node"]}]>
                      {["demo" :=
                          JObj (<["env" := JObj (<["KEEP" := JStr "1"]>
                                                  {["TOKEN" := JStr "old"]})]>
                                  {["command" := JStr "uv"]})]})]}).

Definition mac_fs : filesystem :=
  FS (<[mac_config_file := File (Some old_config)]>
        {[mac_claude_dir := Dir]}) false.

(** A Windows host whose home directory cannot be determined. *)
Definition homeless : host := Host "win32" None (fun p => Some p).

Definition linux : host :=
  Host "linux" (Some ["home"; "ada"]) (fun p => Some ("/abs/" +:+ p)).

(** The file system after [demo] is registered again on [mac] with a new
    token. *)
Definition mac_fs_after : filesystem :=
  match update_claude_config mac "server.py:app" "demo" None
          (Some ["httpx"]) (Some {["TOKEN" := "new"]}) mac_fs with
  | Return (_, fs') => fs'
  | Raise _ => mac_fs
  end.

Close Scope string_scope.

End Claude.

(** ** The upsert as a function of the configuration object *)
Module Upsert.
Import Claude.
Open Scope string_scope.

(** The table of servers the update works on: an empty one when the
    configuration has no ["mcpServers"], none when that is not an object. *)
Definition servers_table (c : gmap string json)
  : option (gmap string json) :=
  match c !! "mcpServers" with
  | None => Some ∅
  | Some (JObj s) => Some s
  | Some _ => None
  end.

(** The environment given to the new entry (the merge of lines 58-68). *)
Definition next_env (servers : gmap string json) (server_name : string)
    (env_vars : option (gmap string string)) : option json :=
  match servers !! server_name with
  | None => Some (env_value env_vars)
  | Some entry =>
      has_env ← py_contains "env" entry;
      if has_env : bool then
        existing_env ← py_getitem entry "env";
        match env_vars with
        | Some new =>
            if truthy (env_value env_vars) then merge_env existing_env new
            else Some existing_env
        | None => Some existing_env
        end
      else Some (env_value env_vars)
  end.

(** The configuration written back. *)
Definition next_config (h : host) (file_spec server_name : string)
    (with_editable : option string) (with_packages : option (list string))
    (env_vars : option (gmap string string)) (c : gmap string json)
  : option json :=
  servers ← servers_table c;
  env ← next_env servers server_name env_vars;
  spec ← absolute_spec h file_spec;
  Some (JObj (<["mcpServers" :=
                  JObj (<[server_name :=
                            JObj (server_config
                                    (uv_args with_editable with_packages
                                       ++ ["fastmcp"; "run"; spec])%list
                                    env)]> servers)]> c)).

(** A configuration object of the expected layout: the table of servers,
    the entry of the server and its environment are objects where they
    exist. *)
Definition tidy (c : gmap string json) (server_name : string) : Prop :=
  c !! "mcpServers" = None
  \/ exists s,
       c !! "mcpServers" = Some (JObj s)
       /\ (s !! server_name = None
           \/ exists e,
                s !! server_name = Some (JObj e)
                /\ (e !! "env" = None
                    \/ exists m, e !! "env" = Some (JObj m))).

(** [c] occurs in [s]. *)
Definition occurs (c : ascii) (s : string) : Prop :=
  In c (list_ascii_of_string s).

Close Scope string_scope.
End Upsert.

(** ** Further concrete cases *)
Module Cases.
Import Claude.
Open Scope string_scope.

(** The settings of [old_config]. *)
Definition old_settings : gmap string json :=
  match old_config with
  | JObj c => c
  | _ => ∅
  end.

(** A file system whose configuration file holds a JSON array. *)
Definition array_fs : filesystem :=
  FS (<[mac_config_file := File (Some (JArr []))]> {[mac_claude_dir := Dir]})
    false.

Close Scope string_scope.
End Cases.

(** ** Text inside an unfinished placeholder *)

(** A character that the scan of a group name passes over: anything but
    the closing [>], a brace (which [matches] replaces) and the backslash. *)
Definition name_safe (c : ascii) : bool :=
  negb (Ascii.eqb c ">") && negb (Ascii.eqb c "{")
  && negb (Ascii.eqb c "}") && negb (Ascii.eqb c "\").

(** * Properties *)

(** ** Textual substitution *)
Section Replace.

Lemma replace_char_app old new a b :
  replace_char old new (a ++ b)
  = replace_char old new a ++ replace_char old new b.
Proof.
  induction a as [|c a IH]; simpl; [done|].
  by rewrite IH, (assoc_L (++)).
Qed.

Lemma replace_char_absent old new s :
  forallb (fun c => negb (Ascii.eqb c old)) s = true ->
  replace_char old new s = s.
Proof.
  induction s as [|c s IH]; simpl; [done|].
  intros [Hc Hs]%andb_true_iff.
  apply negb_true_iff in Hc. rewrite Hc. simpl. by rewrite IH.
Qed.

End Replace.

(** ** Characters *)
Section Characters.

Lemma plain_spec c :
  Shape.plain c = true ->
  Re.is_special c = false /\ Re.repeat_of c = None
  /\ Ascii.eqb c "{" = false /\ Ascii.eqb c "}" = false
  /\ Ascii.eqb c "\" = false.
Proof.
  unfold Shape.plain, Re.is_special, Re.repeat_of. simpl.
  intros [H1 H2]%andb_true_iff.
  apply negb_true_iff in H1, H2.
  repeat (apply orb_false_iff in H1 as [? H1]).
  by repeat match goal with H : Ascii.eqb _ _ = false |- _ => rewrite H; clear H end.
Qed.

Lemma ident_char_spec c :
  Re.ident_char c = true ->
  Shape.plain c = true /\ Ascii.eqb c ">" = false /\ Re.is_ascii c = true.
Proof.
  destruct c as [[] [] [] [] [] [] [] []]; vm_compute; intros; try done.
Qed.

Lemma isidentifier_chars n :
  Re.isidentifier n = true -> forallb Re.ident_char n = true.
Proof.
  destruct n as [|c n]; simpl; [done|].
  intros [Hc Hn]%andb_true_iff. unfold Re.ident_char at 1.
  by rewrite Hc, Hn.
Qed.

Lemma forallb_impl {A} (P Q : A -> bool) (l : list A) :
  (forall x, P x = true -> Q x = true) ->
  forallb P l = true -> forallb Q l = true.
Proof.
  intros HPQ. induction l as [|x l IH]; simpl; [done|].
  intros [Hx Hl]%andb_true_iff. by rewrite (HPQ _ Hx), IH.
Qed.

Lemma plain_no (old : ascii) l :
  Re.is_special old = true \/ old = "}"%char ->
  forallb Shape.plain l = true ->
  forallb (fun c => negb (Ascii.eqb c old)) l = true.
Proof.
  intros Hold. apply forallb_impl. intros c Hc.
  apply negb_true_iff, Ascii.eqb_neq. intros ->.
  unfold Shape.plain in Hc. apply andb_true_iff in Hc as [H1 H2].
  destruct Hold as [Hs| ->]; [by rewrite Hs in H1 | done].
Qed.

Lemma ident_plain n :
  Re.isidentifier n = true -> forallb Shape.plain n = true.
Proof.
  intros H%isidentifier_chars. revert H. apply forallb_impl.
  intros c Hc. by apply ident_char_spec.
Qed.

End Characters.

(** ** The pattern of a well-formed template *)
Section Pattern.

Lemma pattern_of_app a b :
  (forallb (fun c => negb (Ascii.eqb c "{")) a = true) ->
  (forallb (fun c => negb (Ascii.eqb c "}")) a = true) ->
  Templates.pattern_of (a ++ b) = a ++ Templates.pattern_of b.
Proof.
  intros H1 H2. unfold Templates.pattern_of.
  rewrite !replace_char_app.
  by rewrite (replace_char_absent _ _ a H1), (replace_char_absent _ _ a H2).
Qed.

Lemma pattern_of_plain l :
  forallb Shape.plain l = true -> Templates.pattern_of l = l.
Proof.
  intros Hl. rewrite <- (app_nil_r l) at 1.
  rewrite pattern_of_app; [by rewrite app_nil_r| |]; apply plain_no; auto.
Qed.

Lemma pattern_of_slots sl :
  Forall (fun sl => Re.isidentifier (fst sl) = true
                    /\ forallb Shape.plain (snd sl) = true) sl ->
  Templates.pattern_of
    (flat_map (fun '(n, l) => L "{" ++ n ++ L "}" ++ l) sl)
  = flat_map slot_pattern sl.
Proof.
  induction 1 as [|[n l] sl [Hn Hl] _ IH]; [done|].
  simpl in Hn, Hl. cbn [flat_map]. unfold slot_pattern at 1. cbn [fst snd].
  rewrite <- IH. clear IH.
  pose proof (ident_plain _ Hn) as Hp.
  unfold Templates.pattern_of.
  rewrite !replace_char_app. cbn [L list_ascii_of_string replace_char].
  rewrite (replace_char_absent "{" _ n), (replace_char_absent "{" _ l)
    by (apply plain_no; auto).
  rewrite (replace_char_absent "}" _ n), (replace_char_absent "}" _ l)
    by (apply plain_no; auto).
  simpl. by rewrite <- !(assoc_L (++)).
Qed.

Lemma pattern_of_render T :
  Shape.spelled T ->
  Templates.pattern_of (Shape.render T)
  = Shape.lead T ++ flat_map slot_pattern (Shape.slots T).
Proof.
  intros (Hlead & Hslots). unfold Shape.render.
  rewrite pattern_of_app by (apply plain_no; auto).
  by rewrite pattern_of_slots.
Qed.

End Pattern.

(** ** Compiling the pattern of a well-formed template *)
Section Parsing.
Import Re.

Lemma run_stuck p s :
  (forall st, p <> Running st) -> run p s = p.
Proof. destruct s, p; naive_solver. Qed.

Lemma run_app p a b : run p (a ++ b) = run (run p a) b.
Proof.
  revert p. induction a as [|c a IH]; intros p; simpl; [done|].
  destruct p; [apply IH| |]; by rewrite run_stuck.
Qed.

Lemma run_lits cur stack names l :
  forallb Shape.plain l = true ->
  run (Running (PState MNormal cur stack names)) l
  = Running (PState MNormal (rev (lits l) ++ cur) stack names).
Proof.
  revert cur. induction l as [|c l IH]; intros cur; simpl; [done|].
  intros [Hc Hl]%andb_true_iff.
  destruct (plain_spec _ Hc) as (Hs & Hr & _).
  unfold step, step_normal; simpl. rewrite Hr, Hs; simpl.
  unfold push; simpl. rewrite IH by done.
  by rewrite <- (assoc_L (++)).
Qed.

Lemma run_name acc n cur stack names rest :
  forallb ident_char n = true ->
  run (Running (PState (MName acc) cur stack names)) (n ++ rest)
  = run (Running (PState (MName (acc ++ n)) cur stack names)) rest.
Proof.
  revert acc. induction n as [|c n IH]; intros acc; simpl.
  - by rewrite app_nil_r.
  - intros [Hc Hn]%andb_true_iff.
    destruct (ident_char_spec _ Hc) as (Hp & Hgt & _).
    destruct (plain_spec _ Hp) as (_ & _ & _ & _ & Hb).
    unfold step; simpl. rewrite Hgt, Hb.
    rewrite IH by done. by rewrite <- (assoc_L (++)).
Qed.

Lemma isidentifier_ascii n :
  isidentifier n = true -> forallb is_ascii n = true.
Proof.
  intros H%isidentifier_chars. revert H. apply forallb_impl.
  intros c Hc. by apply ident_char_spec.
Qed.

(** What the parser does at the closing [>] of a group name. *)
Lemma run_open n cur stack names rest :
  isidentifier n = true ->
  run (Running (PState MNormal cur stack names)) (L "(?P<" ++ n ++ L ">" ++ rest)
  = if mem n names then Failed (Redefinition n)
    else run (Running (PState MNormal [] (Frame (Some n) cur :: stack)
                         (names ++ [n]))) rest.
Proof.
  intros Hn. cbn [L list_ascii_of_string app run].
  unfold step at 1 2 3 4; simpl.
  rewrite run_name by by apply isidentifier_chars.
  simpl. unfold step at 1; simpl.
  rewrite bool_decide_false by (by destruct n).
  rewrite isidentifier_ascii, Hn by done. simpl.
  destruct (mem n names); [|done].
  by apply run_stuck.
Qed.

Lemma run_hole n cur stack names rest :
  isidentifier n = true -> n ∉ names ->
  run (Running (PState MNormal cur stack names))
    (L "(?P<" ++ n ++ L ">[^/]+)" ++ rest)
  = run (Running (PState MNormal (hole n :: cur) stack (names ++ [n]))) rest.
Proof.
  intros Hn Hfresh.
  change (L ">[^/]+)" ++ rest) with (L ">" ++ L "[^/]+)" ++ rest).
  rewrite run_open by done.
  unfold mem. rewrite bool_decide_false by done.
  reflexivity.
Qed.

Lemma run_hole_again n cur stack names rest :
  isidentifier n = true -> n ∈ names ->
  run (Running (PState MNormal cur stack names))
    (L "(?P<" ++ n ++ L ">[^/]+)" ++ rest)
  = Failed (Redefinition n).
Proof.
  intros Hn Hdup.
  change (L ">[^/]+)" ++ rest) with (L ">" ++ L "[^/]+)" ++ rest).
  rewrite run_open by done.
  unfold mem. by rewrite bool_decide_true.
Qed.

Lemma run_slots sl cur stack names rest :
  Forall (fun sl => isidentifier (fst sl) = true
                    /\ forallb Shape.plain (snd sl) = true) sl ->
  NoDup (names ++ map fst sl) ->
  run (Running (PState MNormal cur stack names)) (flat_map slot_pattern sl ++ rest)
  = run (Running (PState MNormal (rev (flat_map slot_nodes sl) ++ cur) stack
                    (names ++ map fst sl))) rest.
Proof.
  intros Hsl. revert cur names.
  induction Hsl as [|[n l] sl [Hn Hl] _ IH]; intros cur names Hnd.
  - simpl. by rewrite app_nil_r.
  - simpl in Hn, Hl. cbn [flat_map map fst] in *.
    unfold slot_pattern at 1, slot_nodes at 1. cbn [fst snd].
    rewrite <- !(assoc_L (++)).
    rewrite run_hole; [|done|].
    2:{ apply NoDup_app in Hnd as (_ & Hd & _). intros Hin.
        apply (Hd _ Hin). left. }
    rewrite run_app, run_lits by done.
    rewrite IH.
    2:{ by rewrite <- (assoc_L (++)). }
    f_equal. f_equal. f_equal.
    + rewrite rev_app_distr. simpl. by rewrite <- !(assoc_L (++)).
    + by rewrite <- (assoc_L (++)).
Qed.

Lemma run_slots_dup sl cur stack names rest :
  Forall (fun sl => isidentifier (fst sl) = true
                    /\ forallb Shape.plain (snd sl) = true) sl ->
  NoDup names -> ~ NoDup (names ++ map fst sl) ->
  exists n, n ∈ map fst sl /\
    run (Running (PState MNormal cur stack names))
      (flat_map slot_pattern sl ++ rest)
    = Failed (Redefinition n).
Proof.
  intros Hsl. revert cur names.
  induction Hsl as [|[n l] sl [Hn Hl] _ IH]; intros cur names Hnd Hdup.
  - simpl in Hdup. by rewrite app_nil_r in Hdup.
  - simpl in Hn, Hl. cbn [flat_map map fst] in *.
    unfold slot_pattern at 1. cbn [fst snd].
    rewrite <- !(assoc_L (++)).
    destruct (decide (n ∈ names)) as [Hin|Hout].
    + exists n. split; [left|]. by apply run_hole_again.
    + rewrite run_hole by done.
      rewrite run_app, run_lits by done.
      destruct (IH (rev (lits l) ++ hole n :: cur) (names ++ [n]))
        as (m & Hm & Hrun).
      * apply NoDup_app. split_and!; [done| |apply NoDup_singleton].
        intros x Hx ->%list_elem_of_singleton. done.
      * by rewrite <- (assoc_L (++)).
      * exists m. split; [by right|done].
Qed.

Lemma no_backslash_plain l :
  forallb Shape.plain l = true -> existsb (Ascii.eqb "\") l = false.
Proof.
  induction l as [|c l IH]; cbn [existsb forallb]; [done|].
  intros [Hc Hl]%andb_true_iff.
  destruct (plain_spec _ Hc) as (_ & _ & _ & _ & Hb).
  by rewrite Ascii.eqb_sym, Hb, IH.
Qed.

Lemma no_backslash_slots sl :
  Forall (fun sl => isidentifier (fst sl) = true
                    /\ forallb Shape.plain (snd sl) = true) sl ->
  existsb (Ascii.eqb "\") (flat_map slot_pattern sl) = false.
Proof.
  induction 1 as [|[n l] sl [Hn Hl] _ IH]; [done|].
  simpl in Hn, Hl. cbn [flat_map]. unfold slot_pattern at 1. cbn [fst snd].
  rewrite !existsb_app, IH.
  by rewrite (no_backslash_plain n), (no_backslash_plain l)
    by auto using ident_plain.
Qed.

Lemma no_backslash_anchored T :
  Shape.spelled T ->
  existsb (Ascii.eqb "\") (anchored (Shape.render T)) = false.
Proof.
  intros HT. unfold anchored. rewrite pattern_of_render by done.
  destruct HT as [Hlead Hslots].
  rewrite !existsb_app, (no_backslash_plain (Shape.lead T)),
    no_backslash_slots by done.
  done.
Qed.

Lemma run_caret s :
  run (Running init) (L "^" ++ s)
  = run (Running (PState MNormal [NBol] [] [])) s.
Proof. reflexivity. Qed.

Lemma compile_render T :
  Shape.wf T ->
  compile (anchored (Shape.render T))
  = Compiled (nodes_of T) (Shape.placeholders T).
Proof.
  intros [HT Hnd]. unfold compile.
  rewrite no_backslash_anchored by done.
  unfold anchored. rewrite pattern_of_render by done.
  destruct HT as [Hlead Hslots].
  rewrite run_caret, <- (assoc_L (++)).
  rewrite run_app, run_lits by done.
  rewrite run_slots by done.
  simpl. unfold nodes_of, Shape.placeholders.
  rewrite rev_app_distr; simpl. rewrite rev_app_distr, !rev_involutive.
  simpl. by rewrite <- (assoc_L (++)).
Qed.

Lemma compile_render_dup T :
  Shape.spelled T -> ~ NoDup (Shape.placeholders T) ->
  exists n, n ∈ Shape.placeholders T /\
    compile (anchored (Shape.render T)) = CompileError (Redefinition n).
Proof.
  intros HT Hdup. unfold compile.
  rewrite no_backslash_anchored by done.
  unfold anchored. rewrite pattern_of_render by done.
  destruct HT as [Hlead Hslots].
  rewrite run_caret, <- (assoc_L (++)).
  rewrite run_app, run_lits by done.
  destruct (run_slots_dup (Shape.slots T) (rev (lits (Shape.lead T)) ++ [NBol])
              [] [] (L "$") Hslots) as (n & Hn & Hrun);
    [apply NoDup_nil_2|done|].
  exists n. split; [done|]. by rewrite Hrun.
Qed.

End Parsing.

(** ** Matching the nodes of a well-formed template *)
Section Matching.
Import Re.

Lemma flat_map_assoc {A B C} (f : B -> list C) (g : A -> list B) l :
  flat_map f (flat_map g l) = flat_map (fun x => flat_map f (g x)) l.
Proof.
  induction l as [|x l IH]; simpl; [done|].
  by rewrite flat_map_app, IH.
Qed.

Lemma mseq_app a b pos s g :
  mseq (a ++ b) pos s g
  = flat_map (fun '(p1, s1, g1) => mseq b p1 s1 g1) (mseq a pos s g).
Proof.
  revert pos s g. induction a as [|n a IH]; intros pos s g; simpl.
  - by rewrite app_nil_r.
  - rewrite flat_map_assoc. apply flat_map_ext.
    intros [[p1 s1] g1]. apply IH.
Qed.

Lemma mnode_lit c pos s g :
  mnode (NAtom (ALit c) QOne) pos s g
  = match s with
    | d :: s' => if Ascii.eqb d c then [(pos + 1, s', g)] else []
    | [] => []
    end.
Proof.
  destruct s as [|d s']; simpl; [done|].
  by destruct (Ascii.eqb d c).
Qed.

Lemma in_mseq_lits l pos s g x :
  In x (mseq (lits l) pos s g)
  <-> exists s', s = l ++ s' /\ x = (pos + length l, s', g).
Proof.
  revert pos s. induction l as [|c l IH]; intros pos s.
  - simpl. rewrite Nat.add_0_r. split.
    + intros [<-|[]]. by exists s.
    + intros (s' & -> & ->). by left.
  - cbn [lits map mseq]. rewrite mnode_lit.
    destruct s as [|d s]; [|destruct (Ascii.eqb_spec d c) as [->|Hne]].
    + simpl. split; [done|]. by intros (s' & ? & _).
    + cbn [flat_map]. rewrite app_nil_r. fold (lits l). rewrite IH.
      split; intros (s' & Hs & ->); exists s'.
      * split; [by rewrite Hs|]. simpl. do 2 f_equal. lia.
      * split; [by simplify_eq/=|]. simpl. do 2 f_equal. lia.
    + simpl. split; [done|]. intros (s' & ? & _). by simplify_eq/=.
Qed.

(** The prefixes a repeated atom can take are those the atom accepts
    throughout. *)
Lemma run_len_spec a s k :
  k <= run_len a s
  <-> exists v s', s = v ++ s' /\ length v = k /\ forallb (atom_ok a) v = true.
Proof.
  revert k. induction s as [|c s IH]; intros k; simpl.
  - split.
    + intros Hk. exists [], []. by assert (k = 0) as -> by lia.
    + intros (v & s' & Hs & <- & _). symmetry in Hs.
      apply app_eq_nil in Hs as [-> _]. done.
  - destruct (atom_ok a c) eqn:Hc.
    + destruct k as [|k].
      * split; [|lia]. intros _. by exists [], (c :: s).
      * rewrite <- Nat.succ_le_mono, IH. split.
        -- intros (v & s' & -> & <- & Hv). exists (c :: v), s'.
           simpl. by rewrite Hc, Hv.
        -- intros ([|d v] & s' & Hs & Hl & Hv); [done|].
           simplify_eq/=. apply andb_true_iff in Hv as [_ Hv].
           by exists v, s'.
    + split.
      * intros Hk. assert (k = 0) as -> by lia. by exists [], (c :: s).
      * intros ([|d v] & s' & Hs & <- & Hv); [done|].
        simplify_eq/=. by rewrite Hc in Hv.
Qed.

Lemma not_slash_spec v :
  forallb (atom_ok (ASet true [slash])) v = true <-> ~ In slash v.
Proof.
  induction v as [|c v IH]; simpl; [naive_solver|].
  rewrite andb_true_iff, IH, orb_false_r.
  destruct (Ascii.eqb_spec c slash); intuition congruence.
Qed.

Lemma in_mnode_hole n pos s g x :
  In x (mnode (hole n) pos s g)
  <-> exists v s', s = v ++ s' /\ Shape.segment v
                   /\ x = (pos + length v, s', (n, v) :: g).
Proof.
  unfold hole. cbn [mnode flat_map rep_counts].
  rewrite in_map_iff. split.
  - intros ([[p1 s1] g1] & <- & Hin).
    apply in_flat_map in Hin as ([[p2 s2] g2] & Hin & Hx).
    destruct Hx as [Hx|[]]. simplify_eq.
    apply in_map_iff in Hin as (k & Hk & Hin). simplify_eq.
    apply in_rev, in_seq in Hin as [Hk1 Hk2].
    assert (k <= run_len (ASet true [slash]) s) as Hle by lia.
    apply run_len_spec in Hle as (v & s' & -> & <- & Hv).
    exists v, s'. split; [done|]. split.
    + split; [|by apply not_slash_spec].
      intros ->. simpl in Hk1. lia.
    + rewrite drop_app_length. simpl. do 2 f_equal.
      by rewrite Nat.add_comm, Nat.add_sub, take_app_length.
  - intros (v & s' & -> & [Hne Hv] & ->).
    exists (pos + length v, s', g). split.
    + do 2 f_equal.
      by rewrite Nat.add_comm, Nat.add_sub, take_app_length.
    + apply in_flat_map. exists (pos + length v, s', g).
      split; [|by left].
      apply in_map_iff. exists (length v).
      split; [by rewrite drop_app_length|].
      rewrite <- in_rev, in_seq.
      assert (length v <= run_len (ASet true [slash]) (v ++ s')).
      { apply run_len_spec. exists v, s'. by rewrite not_slash_spec. }
      destruct v; [done|]. simpl in *. lia.
Qed.

Lemma in_mseq_slots sl pos s g x :
  In x (mseq (flat_map slot_nodes sl) pos s g)
  <-> exists vs s',
        length vs = length sl /\ Forall Shape.segment vs
        /\ s = Shape.fill_slots sl vs ++ s'
        /\ x = (pos + length (Shape.fill_slots sl vs), s',
                rev (zip (map fst sl) vs) ++ g).
Proof.
  revert pos s g. induction sl as [|[n l] sl IH]; intros pos s g.
  - simpl. split.
    + intros [<-|[]]. exists [], s. by rewrite Nat.add_0_r.
    + intros (vs & s' & Hlen & _ & -> & ->).
      destruct vs; [|done]. left. by rewrite Nat.add_0_r.
  - cbn [flat_map slot_nodes fst snd app mseq].
    rewrite in_flat_map. split.
    + intros ([[p1 s1] g1] & Hhole & Hrest).
      apply in_mnode_hole in Hhole as (v & s2 & -> & Hv & ?). simplify_eq.
      rewrite mseq_app in Hrest.
      apply in_flat_map in Hrest as ([[p3 s3] g3] & Hlit & Hrest).
      apply in_mseq_lits in Hlit as (s4 & -> & ?). simplify_eq.
      apply IH in Hrest as (vs & s' & Hlen & Hvs & -> & ->).
      exists (v :: vs), s'. split_and!.
      * simpl. by rewrite Hlen.
      * by constructor.
      * simpl. by rewrite <- !(assoc_L (++)).
      * simpl. rewrite !length_app, <- !(assoc_L (++)). simpl.
        do 2 f_equal. lia.
    + intros (vs & s' & Hlen & Hvs & -> & ->).
      destruct vs as [|v vs]; [done|].
      apply Forall_cons in Hvs as [Hv Hvs]. simpl in Hlen.
      exists (pos + length v, l ++ Shape.fill_slots sl vs ++ s', (n, v) :: g).
      split.
      * apply in_mnode_hole. exists v, (l ++ Shape.fill_slots sl vs ++ s').
        split; [|done]. simpl. by rewrite <- !(assoc_L (++)).
      * rewrite mseq_app. apply in_flat_map.
        exists (pos + length v + length l, Shape.fill_slots sl vs ++ s',
                 (n, v) :: g).
        split; [apply in_mseq_lits; by eexists|].
        apply IH. exists vs, s'. split_and!; [lia|done|done|].
        simpl. rewrite !length_app, <- !(assoc_L (++)). simpl.
        do 2 f_equal. lia.
Qed.

Lemma in_mseq_nodes T u x :
  In x (mseq (nodes_of T) 0 u [])
  <-> exists vs s',
        Shape.assignment T vs /\ u = Shape.fill T vs ++ s'
        /\ at_end s' = true
        /\ x = (length (Shape.fill T vs), s',
                rev (zip (Shape.placeholders T) vs)).
Proof.
  unfold nodes_of, Shape.assignment, Shape.fill, Shape.placeholders.
  cbn [mseq mnode flat_map Nat.eqb]. rewrite app_nil_r, mseq_app.
  rewrite in_flat_map. split.
  - intros ([[p1 s1] g1] & Hlit & Hrest).
    apply in_mseq_lits in Hlit as (s2 & -> & ?). simplify_eq.
    rewrite mseq_app in Hrest.
    apply in_flat_map in Hrest as ([[p3 s3] g3] & Hslots & Hend).
    apply in_mseq_slots in Hslots as (vs & s' & Hlen & Hvs & -> & ?).
    simplify_eq. simpl in Hend.
    destruct (at_end s') eqn:He; simpl in Hend; [|done].
    destruct Hend as [<-|[]].
    exists vs, s'. split_and!; [done|done| |done|].
    + by rewrite <- (assoc_L (++)).
    + by rewrite length_app, app_nil_r.
  - intros (vs & s' & [Hlen Hvs] & -> & He & ->).
    exists (length (Shape.lead T),
             Shape.fill_slots (Shape.slots T) vs ++ s', []).
    split; [apply in_mseq_lits; eexists; by rewrite <- (assoc_L (++))|].
    rewrite mseq_app. apply in_flat_map.
    exists (length (Shape.lead T)
            + length (Shape.fill_slots (Shape.slots T) vs), s',
            rev (zip (map fst (Shape.slots T)) vs) ++ []).
    split; [apply in_mseq_slots; by exists vs, s'|].
    simpl. rewrite He. left. by rewrite length_app, app_nil_r.
Qed.

End Matching.

(** ** The match result and its uniqueness *)
Section Bindings.
Import Re.

Lemma lookup_group_In n v g :
  NoDup (map fst g) -> In (n, v) g -> lookup_group n g = Some v.
Proof.
  induction g as [|[m w] g IH]; simpl; [done|].
  intros [Hm Hg]%NoDup_cons [Heq|Hin].
  - simplify_eq. by rewrite bool_decide_true.
  - case_bool_decide as Hnm; [|by apply IH].
    subst m. exfalso. apply Hm.
    apply list_elem_of_In, in_map_iff. by exists (n, v).
Qed.

Lemma groupdict_zip names vs g :
  length vs = length names ->
  (forall n v, In (n, v) (zip names vs) -> lookup_group n g = Some v) ->
  groupdict names g = zip names (map Some vs).
Proof.
  revert vs. induction names as [|n names IH]; intros [|v vs] Hlen Hg;
    simplify_eq/=; [done|].
  rewrite (Hg n v) by by left. f_equal.
  apply IH; [done|]. intros m w Hin. apply Hg. by right.
Qed.

Lemma groupdict_bindings T vs :
  NoDup (Shape.placeholders T) -> Shape.assignment T vs ->
  groupdict (Shape.placeholders T) (rev (zip (Shape.placeholders T) vs))
  = Shape.bindings T vs.
Proof.
  intros Hnd [Hlen _]. unfold Shape.bindings.
  assert (length vs = length (Shape.placeholders T)) as Hlen'.
  { unfold Shape.placeholders. by rewrite length_map. }
  apply groupdict_zip; [done|].
  intros n v Hin. apply lookup_group_In; [|by apply in_rev in Hin].
  rewrite map_rev, fst_zip by lia.
  by rewrite <- Permutation_rev.
Qed.

Lemma first_occurrence {A} (x : A) a b r r' :
  ~ In x a -> ~ In x b -> a ++ x :: r = b ++ x :: r' -> a = b /\ r = r'.
Proof.
  revert b. induction a as [|y a IH]; intros [|z b] Ha Hb Heq;
    simplify_eq/=.
  - done.
  - exfalso. apply Hb. by left.
  - exfalso. apply Ha. by left.
  - destruct (IH b) as [-> ->]; [tauto|tauto|done|done].
Qed.

Lemma fill_slots_inj sl vs vs' :
  Shape.separated sl ->
  length vs = length sl -> length vs' = length sl ->
  Forall Shape.segment vs -> Forall Shape.segment vs' ->
  Shape.fill_slots sl vs = Shape.fill_slots sl vs' -> vs = vs'.
Proof.
  revert vs vs'. induction sl as [|[n l] sl IH];
    intros [|v vs] [|v' vs'] Hsep Hlen Hlen' Hvs Hvs' Heq;
    simplify_eq/=; [done|].
  apply Forall_cons in Hvs as [[_ Hv] Hvs].
  apply Forall_cons in Hvs' as [[_ Hv'] Hvs'].
  destruct Hsep as [[->|Hin] Hsep].
  - destruct vs, vs'; simplify_eq/=.
    rewrite !app_nil_r in Heq. by apply app_inv_tail in Heq as ->.
  - apply list_elem_of_In, list_elem_of_split_l in Hin
      as (l1 & l2 & -> & Hl1).
    rewrite <- !(assoc_L (++)) in Heq. simpl in Heq.
    rewrite !(assoc_L (++) _ l1) in Heq.
    apply first_occurrence in Heq as [Hv1 Hrest].
    + apply app_inv_tail in Hv1 as ->.
      apply app_inv_head in Hrest. f_equal. by apply IH.
    + intros [?|?%list_elem_of_In]%in_app_iff; tauto.
    + intros [?|?%list_elem_of_In]%in_app_iff; tauto.
Qed.

Lemma at_end_no_newline u s :
  ~ Shape.ends_with_newline (u ++ s) -> at_end s = true -> s = [].
Proof.
  intros Hu Hs. destruct s as [|c [|d s]]; simplify_eq/=; [done|].
  apply Ascii.eqb_eq in Hs as ->. exfalso. apply Hu.
  unfold Shape.ends_with_newline. by rewrite last_snoc.
Qed.

End Bindings.

(** ** [matches] on well-formed templates *)
Section MatchesFacts.
Context {V W Schema : Type}.
Implicit Types (t : Templates.ResourceTemplate V W Schema) (T : Shape.shape).
Import Re.

Lemma matches_render t T u :
  Shape.wf T -> Templates.uri_template t = Shape.render T ->
  Templates.matches t u
  = Some (Return
            match mseq (nodes_of T) 0 u [] with
            | [] => None
            | (_, _, g) :: _ => Some (groupdict (Shape.placeholders T) g)
            end).
Proof.
  intros HT Ht. unfold Templates.matches, re_match. rewrite Ht.
  fold (anchored (Shape.render T)). rewrite compile_render by done.
  by destruct (mseq _ _ _ _) as [|[[? ?] ?] ?].
Qed.

(** A well-formed template never makes [matches] raise. *)
Lemma matches_total t T u :
  Shape.wf T -> Templates.uri_template t = Shape.render T ->
  Templates.matches t u = Some (Return None)
  \/ exists d, Templates.matches t u = Some (Return (Some d)).
Proof.
  intros HT Ht. rewrite (matches_render t T u HT Ht).
  destruct (mseq _ _ _ _) as [|[[? ?] ?] ?]; eauto.
Qed.

(** A match binds the placeholders to values whose substitution gives the
    subject, up to a final newline. *)
Lemma matches_sound t T u d :
  Shape.wf T -> Templates.uri_template t = Shape.render T ->
  Templates.matches t u = Some (Return (Some d)) ->
  exists vs s', Shape.assignment T vs /\ u = Shape.fill T vs ++ s'
                /\ at_end s' = true /\ d = Shape.bindings T vs.
Proof.
  intros HT Ht. rewrite (matches_render t T u HT Ht).
  destruct (mseq _ _ _ _) as [|[[p1 s1] g1] rest] eqn:Hm; [done|].
  intros [= <-].
  assert (In (p1, s1, g1) (mseq (nodes_of T) 0 u [])) as Hin
    by (rewrite Hm; by left).
  apply in_mseq_nodes in Hin as (vs & s' & Hvs & -> & He & ?).
  simplify_eq. exists vs, s'. split_and!; [done..|].
  apply groupdict_bindings; [apply HT|done].
Qed.

Lemma matches_complete t T vs s' :
  Shape.wf T -> Templates.uri_template t = Shape.render T ->
  Shape.assignment T vs -> at_end s' = true ->
  exists d, Templates.matches t (Shape.fill T vs ++ s') = Some (Return (Some d)).
Proof.
  intros HT Ht Hvs He. rewrite (matches_render t T _ HT Ht).
  destruct (mseq _ _ _ _) as [|[[p1 s1] g1] rest] eqn:Hm; [|by eauto].
  exfalso.
  assert (In (length (Shape.fill T vs), s',
               rev (zip (Shape.placeholders T) vs))
            (mseq (nodes_of T) 0 (Shape.fill T vs ++ s') [])) as Hin.
  { apply in_mseq_nodes. by exists vs, s'. }
  by rewrite Hm in Hin.
Qed.

(** C1 (as amended): for a template whose literal text has no
    regular-expression metacharacter and whose placeholder names are
    distinct identifiers, and a candidate URI that does not end with a
    newline: when the URI is obtained by substituting non-empty, slash-free
    strings for the placeholders, [matches] succeeds and returns the
    bindings of such a substitution; otherwise it returns [None]; and when
    every two consecutive placeholders are separated by literal text with a
    [/], the bindings returned are exactly the substituted values. *)
Theorem matches_instances t T u :
  Shape.wf T -> Templates.uri_template t = Shape.render T ->
  ~ Shape.ends_with_newline u ->
  ((exists vs, Shape.assignment T vs /\ u = Shape.fill T vs) ->
   exists vs, Shape.assignment T vs /\ u = Shape.fill T vs
              /\ Templates.matches t u
                 = Some (Return (Some (Shape.bindings T vs))))
  /\ (~ (exists vs, Shape.assignment T vs /\ u = Shape.fill T vs) ->
      Templates.matches t u = Some (Return None))
  /\ (Shape.separated (Shape.slots T) ->
      forall vs, Shape.assignment T vs -> u = Shape.fill T vs ->
                 Templates.matches t u
                 = Some (Return (Some (Shape.bindings T vs)))).
Proof.
  intros HT Ht Hnl.
  assert (forall d, Templates.matches t u = Some (Return (Some d)) ->
            exists vs, Shape.assignment T vs /\ u = Shape.fill T vs
                       /\ d = Shape.bindings T vs) as Hsound.
  { intros d Hd.
    destruct (matches_sound t T u d HT Ht Hd) as (vs & s' & Hvs & Hu & He & ->).
    assert (s' = []) as -> by (rewrite Hu in Hnl; by eapply at_end_no_newline).
    rewrite app_nil_r in Hu. by exists vs. }
  assert ((exists vs, Shape.assignment T vs /\ u = Shape.fill T vs) ->
          exists vs, Shape.assignment T vs /\ u = Shape.fill T vs
                     /\ Templates.matches t u
                        = Some (Return (Some (Shape.bindings T vs)))) as Hfound.
  { intros (vs & Hvs & Hu).
    destruct (matches_complete t T vs [] HT Ht Hvs eq_refl) as [d Hd].
    rewrite app_nil_r, <- Hu in Hd.
    destruct (Hsound d Hd) as (vs' & Hvs' & Hu' & ->). by exists vs'. }
  split_and!; [done| |].
  - intros Hnone.
    destruct (matches_total t T u HT Ht) as [Hm|[d Hd]]; [done|].
    destruct (Hsound d Hd) as (vs & Hvs & Hu & _).
    exfalso. apply Hnone. by exists vs.
  - intros Hsep vs Hvs Hu.
    destruct Hfound as (vs' & Hvs' & Hu' & Hm); [by exists vs|].
    rewrite Hm. do 4 f_equal.
    destruct Hvs as [Hlen Hseg], Hvs' as [Hlen' Hseg'].
    apply (fill_slots_inj (Shape.slots T)); try done.
    rewrite Hu in Hu'. unfold Shape.fill in Hu'.
    by apply app_inv_head in Hu'.
Qed.

(** C3 (as amended): for a template whose literal text has no
    regular-expression metacharacter and whose placeholder names are
    distinct identifiers, [matches] never raises: for every candidate URI it
    returns a match result or [None], and it returns [None] whenever the
    URI (taken not to end with a newline) is not an instance of the
    template. *)
Theorem matches_never_raises t T u :
  Shape.wf T -> Templates.uri_template t = Shape.render T ->
  (Templates.matches t u = Some (Return None)
   \/ exists d, Templates.matches t u = Some (Return (Some d)))
  /\ (~ Shape.ends_with_newline u ->
      ~ (exists vs, Shape.assignment T vs /\ u = Shape.fill T vs) ->
      Templates.matches t u = Some (Return None)).
Proof.
  intros HT Ht. split; [by apply (matches_total t T)|].
  intros Hnl Hnone.
  destruct (matches_total t T u HT Ht) as [Hm|[d Hd]]; [done|].
  destruct (matches_sound t T u d HT Ht Hd) as (vs & s' & Hvs & Hu & He & _).
  assert (s' = []) as -> by (rewrite Hu in Hnl; by eapply at_end_no_newline).
  rewrite app_nil_r in Hu. exfalso. apply Hnone. by exists vs.
Qed.

End MatchesFacts.

(** ** Deciding the side conditions *)
Section Decide.

Lemma wfb_wf T : Shape.wfb T = true -> Shape.wf T.
Proof.
  unfold Shape.wfb, Shape.wf, Shape.spelled.
  intros [[Hl Hs]%andb_true_iff Hn]%andb_true_iff.
  split_and!; [done| |by apply bool_decide_eq_true_1 in Hn].
  apply Forall_forall. intros sl Hsl.
  rewrite forallb_forall in Hs.
  apply andb_true_iff, Hs. by apply list_elem_of_In.
Qed.

Lemma segmentb_segment v : Shape.segmentb v = true -> Shape.segment v.
Proof.
  unfold Shape.segmentb, Shape.segment.
  intros [Hne Hs]%andb_true_iff. split.
  - apply negb_true_iff in Hne. by apply bool_decide_eq_false in Hne.
  - apply negb_true_iff in Hs. intros Hin.
    assert (existsb (Ascii.eqb slash) v = true) as Hx; [|congruence].
    apply existsb_exists. exists slash. by rewrite Ascii.eqb_refl.
Qed.

Lemma assignment_dec T vs :
  length vs = length (Shape.slots T) ->
  forallb Shape.segmentb vs = true -> Shape.assignment T vs.
Proof.
  intros Hlen Hvs. split; [done|].
  apply Forall_forall. intros v Hv. apply segmentb_segment.
  rewrite forallb_forall in Hvs. by apply Hvs, list_elem_of_In.
Qed.

End Decide.

(** ** [matches]: concrete runs *)
Section MatchesExamples.
Import Re.

Lemma matches_instances_witness :
  Templates.matches Demo.weather_template (L "weather://paris/current")
  = Some (Return (Some [(L "city", Some (L "paris"))])).
Proof.
  refine (proj2 (proj2 (matches_instances Demo.weather_template Demo.weather_shape
                          (L "weather://paris/current") _ _ _))
            _ [L "paris"] _ _).
  - by apply wfb_wf.
  - reflexivity.
  - by vm_compute.
  - vm_compute. tauto.
  - by apply assignment_dec.
  - reflexivity.
Defined.

(** The literal [.] of a template is read as the wildcard: [a.b/{x}]
    accepts [aXb/y], which no substitution produces. *)
Lemma matches_accepts_non_instance :
  let T := Shape.Shape (L "a.b/") [(L "x", [])] in
  let t := Demo.template_of Demo.get_weather (Shape.render T) in
  Templates.matches t (L "aXb/y") = Some (Return (Some [(L "x", Some (L "y"))]))
  /\ ~ (exists vs, Shape.assignment T vs /\ L "aXb/y" = Shape.fill T vs).
Proof.
  split; [reflexivity|].
  intros (vs & [Hlen _] & Hu).
  destruct vs as [|v [|? ?]]; simplify_eq/=.
Qed.

(** [$] also matches before a final newline. *)
Example matches_trailing_newline :
  Templates.matches (Demo.template_of Demo.get_weather (L "static/about"))
    (L "static/about" ++ [nl])
  = Some (Return (Some [])).
Proof. reflexivity. Qed.

(** Adjacent placeholders: the first one takes as much as it can. *)
Example matches_greedy_split :
  Templates.matches (Demo.template_of Demo.get_weather (L "{a}{b}")) (L "xyz")
  = Some (Return (Some [(L "a", Some (L "xy")); (L "b", Some (L "z"))])).
Proof. reflexivity. Qed.

(** First-match example of the spec: [a/{id}] matches [a/b]. *)
Example matches_a_id :
  Templates.matches (Demo.template_of Demo.get_weather (L "a/{id}")) (L "a/b")
  = Some (Return (Some [(L "id", Some (L "b"))])).
Proof. reflexivity. Qed.

Lemma matches_never_raises_witness :
  Templates.matches Demo.weather_template (L "weather://paris") = Some (Return None).
Proof.
  refine (proj2 (matches_never_raises Demo.weather_template Demo.weather_shape
                   (L "weather://paris") _ _) _ _).
  - by apply wfb_wf.
  - reflexivity.
  - by vm_compute.
  - intros (vs & [Hlen _] & Hu).
    destruct vs as [|v [|? ?]]; simplify_eq/=.
    unfold Shape.fill in Hu. simpl in Hu. simplify_eq.
    match goal with H : _ = v ++ _ |- _ => apply (f_equal length) in H;
      rewrite length_app in H; simpl in H; lia end.
Defined.

(** [matches] raises [re.error] when the pattern it builds does not
    compile: for the template [a(b/{x}], even on the URI [a(b/c] that
    instantiates it, and for the unbalanced template [a/{x]. *)
Lemma matches_raises :
  Templates.matches (Demo.template_of Demo.get_weather (L "a(b/{x}")) (L "a(b/c")
  = Some (Raise UnterminatedSubpattern)
  /\ Templates.matches (Demo.template_of Demo.get_weather (L "a/{x")) (L "a/b")
     = Some (Raise UnterminatedName).
Proof. split; reflexivity. Qed.

End MatchesExamples.

(** ** [from_function] *)
Section FromFunction.
Context {V W Sig Schema : Type}.
Variable json_schema : Sig -> result exn Schema.
Variable validate : Sig -> list (str * V) -> result str (list (str * V)).
Implicit Types (f : Templates.callable V W Sig)
  (t : Templates.ResourceTemplate V W Schema).

Abbreviation from_function := (Templates.from_function json_schema validate).

(** What a successful [from_function] stores. *)
Lemma from_function_fields f tpl nm desc mime t :
  from_function f tpl nm desc mime = Return t ->
  Templates.uri_template t = tpl
  /\ Templates.func t = Templates.validate_call validate f
  /\ Templates.name t <> Templates.lambda_name
  /\ (Templates.truthy_str nm = None -> Templates.fn_name f = Some (Templates.name t)).
Proof.
  unfold Templates.from_function.
  destruct (Templates.truthy_str nm) as [n|] eqn:Hnm.
  - case_bool_decide; [done|].
    destruct (json_schema _); [|done].
    intros [= <-]. simpl. by split_and!.
  - destruct (Templates.fn_name f) as [n|]; [|done].
    case_bool_decide; [done|].
    destruct (json_schema _); [|done].
    intros [= <-]. simpl. by split_and!.
Qed.

(** The template string plays no part in the outcome of [from_function]. *)
Lemma from_function_any_template f tpl tpl' nm desc mime t :
  from_function f tpl nm desc mime = Return t ->
  exists t', from_function f tpl' nm desc mime = Return t'.
Proof.
  unfold Templates.from_function.
  destruct (match Templates.truthy_str nm with
            | Some n => _ | None => _ end) as [n|e]; [|done].
  case_bool_decide; [done|].
  destruct (json_schema _); [|done]. eauto.
Qed.

(** C2 (as amended): creating a template never rejects the template
    string: when [from_function] succeeds it stores the string unchanged,
    and it succeeds just as well with any other string.  A malformed
    template is rejected only when it is matched: a template whose
    placeholder name occurs twice (such as [a/{x}/{x}]) makes [matches]
    raise "redefinition of group name", and [a/{x] makes it raise
    "missing >, unterminated name". *)
Theorem from_function_keeps_template f tpl nm desc mime t :
  from_function f tpl nm desc mime = Return t ->
  Templates.uri_template t = tpl
  /\ (forall tpl', exists t', from_function f tpl' nm desc mime = Return t')
  /\ (forall t' u, Templates.uri_template t' = L "a/{x}/{x}" ->
        @Templates.matches V W Schema t' u
        = Some (Raise (Re.Redefinition (L "x"))))
  /\ (forall t' u, Templates.uri_template t' = L "a/{x" ->
        @Templates.matches V W Schema t' u = Some (Raise Re.UnterminatedName))
  /\ (forall T t' u,
        Shape.spelled T -> ~ NoDup (Shape.placeholders T) ->
        Templates.uri_template t' = Shape.render T ->
        exists n, n ∈ Shape.placeholders T
                  /\ @Templates.matches V W Schema t' u
                     = Some (Raise (Re.Redefinition n))).
Proof.
  intros Hf. split_and!.
  - by apply from_function_fields in Hf as [? _].
  - intros tpl'. by eapply from_function_any_template.
  - intros t' u Ht. unfold Templates.matches, Re.re_match. rewrite Ht.
    reflexivity.
  - intros t' u Ht. unfold Templates.matches, Re.re_match. rewrite Ht.
    reflexivity.
  - intros T t' u HT Hdup Ht.
    destruct (compile_render_dup T HT Hdup) as (n & Hn & Hc).
    exists n. split; [done|].
    unfold Templates.matches, Re.re_match. rewrite Ht.
    fold (anchored (Shape.render T)). by rewrite Hc.
Qed.

(** C8: without an explicit name the template is named after the
    producer ([__name__]), and an anonymous producer (a lambda) is refused
    with a [ValueError]. *)
Theorem from_function_default_name f tpl desc mime :
  (Templates.fn_name f = Some Templates.lambda_name ->
   from_function f tpl None desc mime
   = Raise (ValueError (L "You must provide a name for lambda functions") None))
  /\ (forall t, from_function f tpl None desc mime = Return t ->
                Templates.fn_name f = Some (Templates.name t)).
Proof.
  split.
  - intros Hn. unfold Templates.from_function. simpl. rewrite Hn.
    by rewrite bool_decide_true.
  - intros t Hf. by apply from_function_fields in Hf as (_ & _ & _ & Hn); auto.
Qed.

End FromFunction.

(** ** [create_resource] *)
Section CreateResource.
Context {V W Sig Schema : Type}.
Variable json_schema : Sig -> result exn Schema.
Variable validate : Sig -> list (str * V) -> result str (list (str * V)).
Implicit Types (f : Templates.callable V W Sig)
  (t : Templates.ResourceTemplate V W Schema)
  (w : Templates.world V W) (r : Templates.Resource V W).

Abbreviation from_function' := (Templates.from_function json_schema validate).

Lemma handle_raises {A} (e : exn) :
  exists e', @Templates.handle A e = Raise e'.
Proof. unfold Templates.handle. destruct (exc_is_Exception e); eauto. Qed.

Lemma create_resource_success t uri params w r w' :
  Templates.create_resource t uri params w = (Return r, w') ->
  exists o w1 v,
    Templates.func t params w = (Return o, w1)
    /\ Templates.settle o w1 = (Return v, w')
    /\ r = Templates.FunctionResource uri (Templates.name t)
             (Templates.description t) (Templates.mime_type t)
             (fun w'' => (Return v, w'')).
Proof.
  unfold Templates.create_resource.
  destruct (Templates.func t params w) as [[o|e] w1].
  - destruct (Templates.settle o w1) as [[v|e] w2] eqn:Hs.
    + intros [= <- <-]. by exists o, w1, v.
    + destruct (@handle_raises (Templates.Resource V W) e) as [e' ->]. done.
  - destruct (@handle_raises (Templates.Resource V W) e) as [e' ->]. done.
Qed.

Lemma settle_calls o w x w' :
  Templates.settle o w = (x, w') -> Templates.calls w' = Templates.calls w.
Proof.
  destruct o as [v|body]; simpl.
  - by intros [= _ <-].
  - unfold Templates.await. destruct (body _). by intros [= _ <-].
Qed.

Lemma invoke_calls f args w x w' :
  Templates.invoke f args w = (x, w') ->
  Templates.calls w' = Templates.calls w ++ [args].
Proof.
  unfold Templates.invoke. destruct (Templates.fn_body _ _ _).
  by intros [= _ <-].
Qed.

(** C4: a resource that [create_resource] returns, for a template made by
    [from_function], carries the candidate URI as it was given and the name,
    description and MIME type of the template, and its accessor returns the
    producer's return value.  Validation accepted the parameters, and on the
    validated arguments the body of the producer either returned a plain
    value, which is what the accessor returns, or returned a coroutine,
    which was then run, and the accessor returns what the coroutine
    returned.  The state after the resolution is the one the body, or the
    coroutine, left. *)
Theorem create_resource_fields f tpl nm desc mime t uri params w r w' :
  from_function' f tpl nm desc mime = Return t ->
  Templates.create_resource t uri params w = (Return r, w') ->
  Templates.r_uri r = uri
  /\ Templates.r_name r = Templates.name t
  /\ Templates.r_description r = Templates.description t
  /\ Templates.r_mime_type r = Templates.mime_type t
  /\ exists args,
       validate (Templates.fn_sig f) params = Return args
       /\ ((exists v,
              Templates.fn_body f args (Templates.ext w)
              = (Return (Templates.Obj v), Templates.ext w')
              /\ forall w'',
                   Templates.r_func r w'' = (Return (Templates.Obj v), w''))
           \/ (exists body e1 v,
                 Templates.fn_body f args (Templates.ext w)
                 = (Return (Templates.Coroutine body), e1)
                 /\ body e1 = (Return v, Templates.ext w')
                 /\ forall w'', Templates.r_func r w'' = (Return v, w''))).
Proof.
  intros (_ & Hfunc & _)%from_function_fields
         (o & w1 & v & Hf & Hs & ->)%create_resource_success.
  cbn [Templates.r_uri Templates.r_name Templates.r_description
       Templates.r_mime_type Templates.r_func].
  split_and!; try done.
  rewrite Hfunc in Hf. unfold Templates.validate_call in Hf.
  destruct (validate _ _) as [args|details]; [|done].
  exists args. split; [done|].
  unfold Templates.invoke in Hf.
  destruct (Templates.fn_body f args (Templates.ext w)) as [x e1] eqn:Hb.
  injection Hf as -> <-.
  destruct o as [v0|body]; cbn [Templates.settle] in Hs.
  - injection Hs as <- <-. left. by exists v0.
  - unfold Templates.await in Hs. cbn [Templates.ext Templates.calls] in Hs.
    destruct (body e1) as [y e2] eqn:Hbody. injection Hs as -> <-.
    right. by exists body, e1, v.
Qed.


Lemma create_resource_validation_fails
    f tpl nm desc mime t uri params w details :
  from_function' f tpl nm desc mime = Return t ->
  validate (Templates.fn_sig f) params = Raise details ->
  Templates.create_resource t uri params w
  = (Raise (ValueError (Templates.wrap_message ++ details)
              (Some (ValidationError details))), w).
Proof.
  intros (_ & Hfunc & _)%from_function_fields Hv.
  unfold Templates.create_resource. rewrite Hfunc.
  unfold Templates.validate_call. by rewrite Hv.
Qed.

(** C6: when validation rejects the extracted parameters, the resolution
    fails, with a [ValueError] whose context is the validation error and
    whose text carries its details, and the producer is not invoked: the
    world, with its log of invocations, is unchanged. *)
Theorem validation_failure_stops_resolution
    f tpl nm desc mime t uri params w details :
  from_function' f tpl nm desc mime = Return t ->
  validate (Templates.fn_sig f) params = Raise details ->
  exists err,
    Templates.create_resource t uri params w = (Raise err, w)
    /\ exc_class err = L "ValueError"
    /\ exc_str err = Templates.wrap_message ++ details
    /\ exc_context err = Some (ValidationError details).
Proof.
  intros Ht Hv.
  rewrite (create_resource_validation_fails _ _ _ _ _ _ _ _ _ _ Ht Hv).
  by eexists.
Qed.

Lemma create_resource_producer_raises f tpl nm desc mime t uri params w args e w1 :
  from_function' f tpl nm desc mime = Return t ->
  validate (Templates.fn_sig f) params = Return args ->
  Templates.run_producer f args w = (Raise e, w1) ->
  Templates.create_resource t uri params w = (Templates.handle e, w1).
Proof.
  intros (_ & Hfunc & _)%from_function_fields Hv.
  unfold Templates.create_resource, Templates.run_producer. rewrite Hfunc.
  unfold Templates.validate_call. rewrite Hv.
  destruct (Templates.invoke f args w) as [[o|e'] w2].
  - destruct (Templates.settle o w2) as [[v|e'] w3]; [done|].
    by intros [= -> ->].
  - by intros [= -> ->].
Qed.


End CreateResource.

(** ** The configuration upsert *)
Section ClaudeFacts.
Import Claude.
Open Scope string_scope.

Lemma update_true h file_spec server_name we wp env_vars fs fs' :
  update_claude_config h file_spec server_name we wp env_vars fs
  = Return (true, fs') ->
  exists config_file,
    try_update h config_file file_spec server_name we wp env_vars fs = Some fs'.
Proof.
  unfold update_claude_config.
  destruct (get_claude_config_path h fs) as [[dir|]|]; [|done..].
  destruct (exists_ fs _) as [[]|]; [|done..].
  destruct (try_update _ _ _ _ _ _ _ _) as [fs''|] eqn:Ht; [|done].
  intros [= <-]. eauto.
Qed.

Lemma ensure_servers (c c1 s : gmap string json) :
  (if negb (bool_decide (is_Some (c !! "mcpServers")))
   then Some (JObj (<["mcpServers" := JObj ∅]> c))
   else Some (JObj c)) = Some (JObj c1) ->
  c1 !! "mcpServers" = Some (JObj s) ->
  servers_of (Some (JObj c)) = s
  /\ forall X, <["mcpServers" := X]> c1 = <["mcpServers" := X]> c.
Proof.
  intros H2 H3. simpl. destruct (c !! "mcpServers") as [sv|] eqn:Hsv.
  - rewrite bool_decide_true in H2 by eauto. by simplify_eq/=.
  - rewrite bool_decide_false in H2 by (by intros [? ?]). simplify_eq/=.
    rewrite lookup_insert_eq in H3. simplify_eq.
    split; [done|]. intros X. by rewrite insert_insert_eq.
Qed.

Lemma try_update_Some h cf file_spec server_name we wp env_vars fs fs' :
  try_update h cf file_spec server_name we wp env_vars fs = Some fs' ->
  exists c env entry',
    let servers := servers_of (Some (JObj c)) in
    read_json fs cf = Some (JObj c)
    /\ fs' = FS (<[cf := File (Some (JObj
                    (<["mcpServers" :=
                         JObj (<[server_name := JObj entry']> servers)]> c)))]>
                  (entries fs)) (read_only fs)
    /\ written env entry'
    /\ (forall k v,
          env_of servers server_name !! k = Some v ->
          exists m, env = JObj m
                    /\ m !! k = Some (match env_vars ≫= (.!! k) with
                                      | Some nv => JStr nv
                                      | None => v
                                      end))
    /\ (forall new k nv,
          env_vars = Some new -> new !! k = Some nv ->
          exists m, env = JObj m /\ m !! k = Some (JStr nv)).
Proof.
  unfold try_update. intros H.
  repeat match type of H with
  | (_ ≫= _) = Some _ => apply bind_Some in H as (? & ? & H)
  end.
  rename x into config0, x1 into config1, x2 into servers, x5 into env.
  destruct config0 as [| | | | |c]; simplify_eq/=.
  1,2: by destruct (negb _); simplify_eq/=.
  destruct config1 as [| | | | |c1]; simplify_eq/=.
  destruct servers as [| | | | |s]; simplify_eq/=.
  destruct (ensure_servers _ _ _ H2 H3) as [Hs Hins]. clear H2 H3.
  rewrite Hins in H.
  unfold write_json in H. unfold read_json in H0.
  destruct (entries fs !! cf) as [[|[j|]|]|] eqn:Hcf; simplify_eq/=.
  destruct (read_only fs) eqn:Hro; simplify_eq/=.
  exists c, env, (server_config (uv_args we wp ++ ["fastmcp"; "run"; x6]) env).
  cbn [servers_of].
  set (s := match c !! "mcpServers" with Some (JObj s) => s | _ => ∅ end) in *.
  clearbody s. clear Hins c1.
  assert (forall (new : gmap string string) k nv,
            new !! k = Some nv -> truthy (JObj (JStr <$> new)) = true) as Htruthy.
  { intros new k nv Hk. simpl. apply negb_true_iff, bool_decide_eq_false.
    intros Hsz%map_size_empty_iff.
    assert ((JStr <$> new) !! k = Some (JStr nv)) as Hl
      by by rewrite lookup_fmap, Hk.
    by rewrite Hsz, lookup_empty in Hl. }
  split_and!.
  - unfold read_json. by rewrite Hcf.
  - done.
  - unfold written, server_config. eexists. split; [|done].
    by rewrite lookup_insert_ne, lookup_singleton_ne.
  - intros k v Hk. unfold env_of in Hk.
    destruct (s !! server_name) as [[| | | | |e]|] eqn:He;
      try by rewrite lookup_empty in Hk.
    destruct (e !! "env") as [[| | | | |old]|] eqn:Hold;
      try by rewrite lookup_empty in Hk.
    rewrite bool_decide_true in H5 by eauto. simpl in H5.
    rewrite bool_decide_true in H5 by eauto. simplify_eq/=.
    rewrite Hold in H6. simpl in H6.
    destruct env_vars as [new|]; simplify_eq/=; [|by eauto].
    case_bool_decide as Hsz; simplify_eq/=.
    + apply map_size_empty_iff in Hsz.
      assert (new !! k = None) as ->; [|by eauto].
      apply (f_equal (.!! k)) in Hsz.
      rewrite lookup_fmap, lookup_empty in Hsz.
      by destruct (new !! k).
    + eexists. split; [done|].
      rewrite lookup_union, lookup_fmap, Hk.
      by destruct (new !! k).
  - intros new k nv -> Hk.
    pose proof (Htruthy _ _ _ Hk) as Ht.
    destruct x4; simplify_eq/=.
    + destruct (s !! server_name) as [entry|]; simplify_eq/=.
      destruct (py_getitem entry "env") as [existing|]; simplify_eq/=.
      simpl in Ht. rewrite Ht in H6.
      destruct existing as [| | | | |old]; simplify_eq/=.
      eexists. split; [done|].
      by rewrite lookup_union, lookup_fmap, Hk; destruct (old !! k).
    + eexists. split; [done|]. by rewrite lookup_fmap, Hk.
Qed.

Lemma env_of_written servers server_name entry' m :
  written (JObj m) entry' -> m <> ∅ ->
  env_of (<[server_name := JObj entry']> servers) server_name = m.
Proof.
  intros (base & Hbase & ->) Hm. unfold env_of.
  rewrite lookup_insert_eq. simpl.
  rewrite bool_decide_false by (by rewrite map_size_empty_iff).
  simpl. by rewrite lookup_insert_eq.
Qed.

(** C9: when [update_claude_config] rewrites the configuration, every
    other file, every other top-level setting and the entry of every other
    server are as before; each environment variable stored for the server
    is still there, with its old value unless a new one was supplied; and
    every supplied variable is stored with the supplied value. *)
Theorem upsert_keeps_existing_data
    h file_spec server_name we wp env_vars fs fs' :
  update_claude_config h file_spec server_name we wp env_vars fs
  = Return (true, fs') ->
  exists config_file,
    let before := read_json fs config_file in
    let after := read_json fs' config_file in
    (forall p, p <> config_file -> entries fs' !! p = entries fs !! p)
    /\ settings_of after = settings_of before
    /\ (forall other, other <> server_name ->
          servers_of after !! other = servers_of before !! other)
    /\ (forall k v,
          env_of (servers_of before) server_name !! k = Some v ->
          env_of (servers_of after) server_name !! k
          = Some (match env_vars ≫= (.!! k) with
                  | Some nv => JStr nv
                  | None => v
                  end))
    /\ (forall new k nv,
          env_vars = Some new -> new !! k = Some nv ->
          env_of (servers_of after) server_name !! k = Some (JStr nv)).
Proof.
  intros [cf Htry]%update_true. exists cf.
  apply try_update_Some in Htry
    as (c & env & entry' & Hread & -> & Hw & Hold & Hnew).
  cbn zeta in *. rewrite Hread.
  set (servers := servers_of (Some (JObj c))) in *.
  assert (read_json
            (FS (<[cf := File (Some (JObj
                     (<["mcpServers" :=
                          JObj (<[server_name := JObj entry']> servers)]> c)))]>
                   (entries fs)) (read_only fs)) cf
          = Some (JObj (<["mcpServers" :=
                          JObj (<[server_name := JObj entry']> servers)]> c)))
    as ->.
  { unfold read_json. simpl. by rewrite lookup_insert_eq. }
  assert (servers_of (Some (JObj (<["mcpServers" :=
                          JObj (<[server_name := JObj entry']> servers)]> c)))
          = <[server_name := JObj entry']> servers) as ->.
  { simpl. by rewrite lookup_insert_eq. }
  split_and!.
  - intros p Hp. simpl. by rewrite lookup_insert_ne.
  - simpl. by rewrite delete_insert_eq.
  - intros other Hother. by rewrite lookup_insert_ne.
  - intros k v Hk. destruct (Hold k v Hk) as (m & -> & Hm).
    rewrite (env_of_written _ _ _ m); [done|done|].
    intros ->. by rewrite lookup_empty in Hm.
  - intros new k nv Henv Hk. destruct (Hnew new k nv Henv Hk) as (m & -> & Hm).
    rewrite (env_of_written _ _ _ m); [done|done|].
    intros ->. by rewrite lookup_empty in Hm.
Qed.


End ClaudeFacts.

(** ** Concrete runs *)
Section Runs.

Lemma from_function_keeps_template_witness :
  Templates.uri_template (Demo.template_of Demo.get_weather (L "a/{x}/{x}"))
  = L "a/{x}/{x}"
  /\ forall u,
       Templates.matches (Demo.template_of Demo.get_weather (L "a/{x}/{x}")) u
       = Some (Raise (Re.Redefinition (L "x"))).
Proof.
  destruct (from_function_keeps_template Demo.json_schema Demo.validate
              Demo.get_weather (L "a/{x}/{x}") None None None
              (Demo.template_of Demo.get_weather (L "a/{x}/{x}")) eq_refl)
    as (H1 & _ & H3 & _).
  split; [exact H1|]. intros u. apply H3. reflexivity.
Defined.

(** [from_function] accepts a template with a duplicated placeholder and
    one with an unbalanced brace. *)
Lemma from_function_accepts_malformed :
  (exists t, Demo.from_function Demo.get_weather (L "a/{x}/{x}") None None None
             = Return t)
  /\ (exists t, Demo.from_function Demo.get_weather (L "a/{x") None None None
                = Return t).
Proof. split; eexists; reflexivity. Qed.

Lemma from_function_default_name_witness :
  Demo.from_function Demo.anonymous (L "weather://{city}/current") None None None
  = Raise (ValueError (L "You must provide a name for lambda functions") None)
  /\ Templates.fn_name Demo.get_weather
     = Some (Templates.name Demo.weather_template).
Proof.
  split.
  - apply (proj1 (from_function_default_name Demo.json_schema Demo.validate
                    Demo.anonymous (L "weather://{city}/current") None None)).
    reflexivity.
  - apply (proj2 (from_function_default_name Demo.json_schema Demo.validate
                    Demo.get_weather (L "weather://{city}/current") None None)).
    reflexivity.
Defined.

Lemma create_resource_fields_witness :
  let t := Demo.template_of Demo.get_weather_async
             (L "weather://{city}/current") in
  let r := Demo.resource_of t Demo.weather_uri Demo.paris Demo.w0 in
  Templates.r_uri r = Demo.weather_uri
  /\ Templates.r_name r = L "get_weather_async"
  /\ Templates.r_mime_type r = L "text/plain"
  /\ Templates.r_func r Demo.w0 = (Return Demo.sunny, Demo.w0).
Proof.
  destruct (create_resource_fields Demo.json_schema Demo.validate
              Demo.get_weather_async (L "weather://{city}/current")
              None None None
              (Demo.template_of Demo.get_weather_async
                 (L "weather://{city}/current"))
              Demo.weather_uri Demo.paris Demo.w0
              (Demo.resource_of
                 (Demo.template_of Demo.get_weather_async
                    (L "weather://{city}/current"))
                 Demo.weather_uri Demo.paris Demo.w0)
              (Demo.world_after
                 (Demo.template_of Demo.get_weather_async
                    (L "weather://{city}/current"))
                 Demo.weather_uri Demo.paris Demo.w0)
              eq_refl eq_refl) as (Hu & Hn & _ & Hm & _).
  cbn zeta. split_and!; [exact Hu|exact Hn|exact Hm|reflexivity].
Defined.

(** The same with a coroutine function as the producer. *)
Example create_resource_async :
  let t := Demo.template_of Demo.get_weather_async (L "weather://{city}/current") in
  Templates.r_func (Demo.resource_of t Demo.weather_uri Demo.paris Demo.w0)
    Demo.w0
  = (Return Demo.sunny, Demo.w0).
Proof. reflexivity. Qed.


(** The producer [ticket] answers differently at each resolution, and each
    resource keeps the answer of its own resolution. *)
Example ticket_snapshots :
  let params := Demo.params_of [(L "queue", Some (L "a"))] in
  let w1 := Demo.world_after Demo.ticket_template (L "ticket://a") params Demo.w0 in
  let r0 := Demo.resource_of Demo.ticket_template (L "ticket://a") params Demo.w0 in
  let r1 := Demo.resource_of Demo.ticket_template (L "ticket://a") params w1 in
  fst (Templates.r_func r0 w1) = Return (Templates.Obj (Demo.VInt 0))
  /\ fst (Templates.r_func r1 w1) = Return (Templates.Obj (Demo.VInt 1)).
Proof. split; reflexivity. Qed.

Lemma validation_failure_stops_resolution_witness :
  exists err,
    Templates.create_resource Demo.item_template (L "item://abc") Demo.abc
      Demo.w0
    = (Raise err, Demo.w0)
    /\ exc_class err = L "ValueError"
    /\ exc_str err = Templates.wrap_message ++ L "invalid value for id"
    /\ exc_context err = Some (ValidationError (L "invalid value for id")).
Proof.
  exact (validation_failure_stops_resolution Demo.json_schema Demo.validate
           Demo.item (L "item://{id}") None None None Demo.item_template
           (L "item://abc") Demo.abc Demo.w0 (L "invalid value for id")
           eq_refl eq_refl).
Defined.



End Runs.

Section ClaudeRuns.
Import Claude.
Open Scope string_scope.

Lemma upsert_keeps_existing_data_witness :
  let before := read_json mac_fs mac_config_file in
  let after := read_json mac_fs_after mac_config_file in
  servers_of after !! "other" = servers_of before !! "other"
  /\ env_of (servers_of after) "demo" !! "KEEP" = Some (JStr "1")
  /\ env_of (servers_of after) "demo" !! "TOKEN" = Some (JStr "new").
Proof.
  assert (update_claude_config mac "server.py:app" "demo" None
            (Some ["httpx"]) (Some {["TOKEN" := "new"]}) mac_fs
          = Return (true, mac_fs_after)) as Hrun by (vm_compute; reflexivity).
  destruct (upsert_keeps_existing_data mac "server.py:app" "demo" None
              (Some ["httpx"]) (Some {["TOKEN" := "new"]}) mac_fs mac_fs_after
              Hrun) as (cf & Hfiles & _ & Hothers & Hold & Hnew).
  assert (cf = mac_config_file) as ->.
  { destruct (decide (mac_config_file = cf)) as [|Hne]; [done|].
    specialize (Hfiles _ Hne). vm_compute in Hfiles. done. }
  cbn zeta. split_and!.
  - by apply Hothers.
  - by apply (Hold "KEEP" (JStr "1")).
  - by apply (Hnew {["TOKEN" := "new"]} "TOKEN" "new").
Defined.



(** The configuration file is not created when it is missing. *)
Example update_missing_file :
  let fs := FS {[mac_claude_dir := Dir]} false in
  update_claude_config mac "server.py" "demo" None None None fs
  = Return (false, fs).
Proof. reflexivity. Qed.

End ClaudeRuns.


(** * Further properties of the code *)

(** ** [matches]: every URI, and the shape of a match *)
Section MatchesMore.
Context {V W Schema : Type}.
Implicit Types (t : Templates.ResourceTemplate V W Schema) (T : Shape.shape).
Import Re.

Lemma at_end_cases s : at_end s = true <-> s = [] \/ s = [nl].
Proof.
  destruct s as [|c [|d s]]; simpl.
  - intuition.
  - rewrite Ascii.eqb_eq. split; [intros ->; by right|].
    intros [?|?]; by simplify_eq.
  - split; [done|]. intros [?|?]; by simplify_eq.
Qed.

(** X2: for a template with metacharacter-free literal text and distinct
    identifier placeholders, [matches] succeeds on a URI exactly when the URI
    is an instance of the template, or such an instance followed by one
    newline (the final [$] of the pattern also matches before a trailing
    newline). *)
Theorem matches_accepted_uris t T u :
  Shape.wf T -> Templates.uri_template t = Shape.render T ->
  (exists d, Templates.matches t u = Some (Return (Some d)))
  <-> exists vs, Shape.assignment T vs
                 /\ (u = Shape.fill T vs \/ u = Shape.fill T vs ++ [nl]).
Proof.
  intros HT Ht. split.
  - intros [d Hd].
    destruct (matches_sound t T u d HT Ht Hd) as (vs & s' & Hvs & -> & He & _).
    exists vs. split; [done|].
    apply at_end_cases in He as [->| ->]; [left; by rewrite app_nil_r|by right].
  - intros (vs & Hvs & [->| ->]).
    + rewrite <- (app_nil_r (Shape.fill T vs)).
      by apply (matches_complete t T vs []).
    + by apply (matches_complete t T vs [nl]).
Qed.

(** X1: whatever the URI, a match result of such a template has the
    placeholder names of the template as its keys, in order of appearance,
    and binds each of them to a non-empty text without [/] (never to
    [None]). *)
Theorem matches_result_shape t T u d :
  Shape.wf T -> Templates.uri_template t = Shape.render T ->
  Templates.matches t u = Some (Return (Some d)) ->
  map fst d = Shape.placeholders T
  /\ Forall (fun b => exists v, snd b = Some v /\ Shape.segment v) d.
Proof.
  intros HT Ht Hd.
  destruct (matches_sound t T u d HT Ht Hd) as (vs & s' & [Hlen Hvs] & _ & _ & ->).
  unfold Shape.bindings, Shape.placeholders in *.
  split.
  - apply fst_zip. rewrite !length_map. lia.
  - apply Forall_forall. intros [n o] Hin. simpl.
    apply elem_of_zip_r in Hin.
    apply list_elem_of_fmap in Hin as (v & -> & Hv).
    exists v. split; [done|].
    rewrite Forall_forall in Hvs. by apply Hvs.
Qed.

(** X3: the empty URI is matched by the empty template only, with an empty
    result; every other template of that kind answers [None] to it. *)
Theorem matches_empty_uri t T :
  Shape.wf T -> Templates.uri_template t = Shape.render T ->
  (Shape.render T = [] -> Templates.matches t [] = Some (Return (Some [])))
  /\ (Shape.render T <> [] -> Templates.matches t [] = Some (Return None)).
Proof.
  intros HT Ht. split.
  - intros Hr. destruct T as [lead slots]. unfold Shape.render in Hr.
    simpl in Hr. apply app_eq_nil in Hr as [-> Hs].
    destruct slots as [|[n l] slots]; [|done].
    destruct (matches_complete t (Shape.Shape [] []) [] [] HT Ht) as [d Hd];
      [by split|done|].
    simpl in Hd. rewrite Hd.
    by destruct (matches_sound t _ _ d HT Ht Hd) as (vs & s' & _ & _ & _ & ->).
  - intros Hr.
    destruct (matches_total t T [] HT Ht) as [Hm|[d Hd]]; [done|].
    exfalso.
    destruct (matches_sound t T [] d HT Ht Hd) as (vs & s' & [Hlen Hvs] & Hu & _).
    symmetry in Hu. apply app_eq_nil in Hu as [Hf _].
    unfold Shape.fill in Hf. apply app_eq_nil in Hf as [Hl Hs].
    apply Hr. unfold Shape.render. rewrite Hl. simpl.
    destruct (Shape.slots T) as [|[n l] slots]; [done|].
    destruct vs as [|v vs]; [done|]. simpl in Hs.
    apply app_eq_nil in Hs as [-> _].
    apply Forall_cons in Hvs as [[Hne _] _]. done.
Qed.

End MatchesMore.

(** ** [matches]: misplaced braces *)
Section BraceErrors.
Context {V W Schema : Type}.
Implicit Types (t : Templates.ResourceTemplate V W Schema).
Import Re.

Lemma name_safe_spec c :
  name_safe c = true ->
  Ascii.eqb c ">" = false /\ Ascii.eqb c "{" = false
  /\ Ascii.eqb c "}" = false /\ Ascii.eqb c "\" = false.
Proof.
  unfold name_safe. rewrite !andb_true_iff, !negb_true_iff. tauto.
Qed.

Lemma name_safe_no old n :
  old = "{"%char \/ old = "}"%char \/ old = "\"%char ->
  forallb name_safe n = true ->
  forallb (fun c => negb (Ascii.eqb c old)) n = true.
Proof.
  intros Hold. apply forallb_impl. intros c Hc.
  destruct (name_safe_spec c Hc) as (_ & H1 & H2 & H3).
  destruct Hold as [->|[->| ->]]; by rewrite ?H1, ?H2, ?H3.
Qed.

Lemma no_backslash_spec s :
  existsb (Ascii.eqb "\") s = false
  <-> forallb (fun c => negb (Ascii.eqb c "\")) s = true.
Proof.
  induction s as [|c s IH]; cbn [existsb forallb]; [done|].
  rewrite orb_false_iff, andb_true_iff, IH, negb_true_iff.
  by rewrite (Ascii.eqb_sym c "\").
Qed.

Lemma no_backslash_replace old new s :
  existsb (Ascii.eqb "\") new = false ->
  existsb (Ascii.eqb "\") s = false ->
  existsb (Ascii.eqb "\") (replace_char old new s) = false.
Proof.
  intros Hnew. induction s as [|c s IH]; cbn [existsb replace_char]; [done|].
  intros [Hc Hs]%orb_false_iff. rewrite existsb_app, IH by done.
  destruct (Ascii.eqb c old); [by rewrite Hnew|].
  cbn [existsb]. by rewrite Hc.
Qed.

Lemma no_backslash_pattern_of s :
  existsb (Ascii.eqb "\") s = false ->
  existsb (Ascii.eqb "\") (Templates.pattern_of s) = false.
Proof.
  intros Hs. unfold Templates.pattern_of.
  by repeat apply no_backslash_replace.
Qed.

Lemma pattern_of_open s :
  Templates.pattern_of (L "{" ++ s) = L "(?P<" ++ Templates.pattern_of s.
Proof. reflexivity. Qed.

Lemma pattern_of_close s :
  Templates.pattern_of (L "}" ++ s) = L ">[^/]+)" ++ Templates.pattern_of s.
Proof. reflexivity. Qed.

Lemma pattern_of_name n s :
  forallb name_safe n = true ->
  Templates.pattern_of (n ++ s) = n ++ Templates.pattern_of s.
Proof. intros Hn. apply pattern_of_app; apply name_safe_no; auto. Qed.

Lemma run_name_safe acc n cur stack names rest :
  forallb name_safe n = true ->
  run (Running (PState (MName acc) cur stack names)) (n ++ rest)
  = run (Running (PState (MName (acc ++ n)) cur stack names)) rest.
Proof.
  revert acc. induction n as [|c n IH]; intros acc; simpl.
  - by rewrite app_nil_r.
  - intros [Hc Hn]%andb_true_iff.
    destruct (name_safe_spec _ Hc) as (Hgt & _ & _ & Hb).
    unfold step; simpl. rewrite Hgt, Hb.
    rewrite IH by done. by rewrite <- (assoc_L (++)).
Qed.

(** Reading a whole template up to the text of a group name. *)
Lemma run_to_name lead rest :
  forallb Shape.plain lead = true ->
  run (Running init) (L "^" ++ lead ++ L "(?P<" ++ rest)
  = run (Running (PState (MName []) (rev (lits lead) ++ [NBol]) [] [])) rest.
Proof.
  intros Hlead. rewrite run_caret, run_app, run_lits by done. reflexivity.
Qed.

Lemma run_cons st c r : run (Running st) (c :: r) = run (step st c) r.
Proof. reflexivity. Qed.

Lemma step_name_close n cur stack names :
  step (PState (MName n) cur stack names) ">"
  = if bool_decide (n = []) then Failed MissingGroupName
    else if negb (forallb is_ascii n) then Unsupported
    else if negb (isidentifier n) then Failed (BadGroupName n)
    else if mem n names then Failed (Redefinition n)
    else Running (open_group (Some n) (PState (MName n) cur stack names)).
Proof. reflexivity. Qed.

(** X4: a template that ends inside a placeholder (plain text, then [{]
    and a name that is never closed) makes [matches] raise the [re.error]
    "missing >, unterminated name", whatever the URI. *)
Theorem matches_unclosed_placeholder t lead n u :
  forallb Shape.plain lead = true -> forallb name_safe n = true ->
  Templates.uri_template t = lead ++ L "{" ++ n ->
  Templates.matches t u = Some (Raise UnterminatedName).
Proof.
  intros Hlead Hn Ht. unfold Templates.matches, re_match. rewrite Ht.
  assert (Templates.pattern_of (lead ++ L "{" ++ n) = lead ++ L "(?P<" ++ n)
    as ->.
  { rewrite pattern_of_app by (apply plain_no; auto).
    rewrite pattern_of_open. rewrite <- (app_nil_r n) at 1.
    by rewrite pattern_of_name, app_nil_r. }
  unfold compile.
  assert (existsb (Ascii.eqb "\") (L "^" ++ (lead ++ L "(?P<" ++ n) ++ L "$")
          = false) as ->.
  { rewrite !existsb_app, (no_backslash_plain lead) by done.
    assert (existsb (Ascii.eqb "\") n = false) as ->; [|done].
    apply no_backslash_spec. apply name_safe_no; auto. }
  rewrite <- !(assoc_L (++)). rewrite run_to_name by done.
  rewrite <- (app_nil_r (n ++ L "$")).
  rewrite run_name_safe.
  2:{ rewrite forallb_app, Hn. reflexivity. }
  simpl. by destruct n.
Qed.

(** X5: a closing brace that no opening brace precedes (plain text, then
    [}]) makes [matches] raise the [re.error] "unbalanced parenthesis",
    whatever follows it in the template and whatever the URI. *)
Theorem matches_stray_closing_brace t lead rest u :
  forallb Shape.plain lead = true ->
  existsb (Ascii.eqb "\") rest = false ->
  Templates.uri_template t = lead ++ L "}" ++ rest ->
  Templates.matches t u = Some (Raise UnbalancedParenthesis).
Proof.
  intros Hlead Hrest Ht. unfold Templates.matches, re_match. rewrite Ht.
  rewrite pattern_of_app by (apply plain_no; auto).
  rewrite pattern_of_close.
  unfold compile.
  assert (existsb (Ascii.eqb "\")
            (L "^" ++ (lead ++ L ">[^/]+)" ++ Templates.pattern_of rest) ++ L "$")
          = false) as ->.
  { rewrite !existsb_app, (no_backslash_plain lead) by done.
    by rewrite (no_backslash_pattern_of rest). }
  rewrite <- !(assoc_L (++)).
  rewrite run_caret, run_app, run_lits by done.
  assert (run (Running (PState MNormal (rev (lits lead) ++ [NBol]) [] []))
            (L ">[^/]+)")
          = Failed UnbalancedParenthesis) as Hrun by reflexivity.
  rewrite run_app, Hrun. by rewrite run_stuck.
Qed.

(** X6: a placeholder whose name is not an identifier makes [matches]
    raise, whatever the URI: "missing group name" for the empty
    placeholder, "bad character in group name" otherwise. *)
Theorem matches_bad_placeholder_name t lead n rest u :
  forallb Shape.plain lead = true ->
  forallb name_safe n = true -> forallb is_ascii n = true ->
  isidentifier n = false ->
  existsb (Ascii.eqb "\") rest = false ->
  Templates.uri_template t = lead ++ L "{" ++ n ++ L "}" ++ rest ->
  Templates.matches t u
  = Some (Raise (if bool_decide (n = []) then MissingGroupName
                 else BadGroupName n)).
Proof.
  intros Hlead Hn Hascii Hid Hrest Ht.
  unfold Templates.matches, re_match. rewrite Ht.
  rewrite pattern_of_app by (apply plain_no; auto).
  rewrite pattern_of_open, pattern_of_name, pattern_of_close by done.
  unfold compile.
  assert (existsb (Ascii.eqb "\")
            (L "^" ++ (lead ++ L "(?P<" ++ n ++ L ">[^/]+)"
                         ++ Templates.pattern_of rest) ++ L "$")
          = false) as ->.
  { rewrite !existsb_app, (no_backslash_plain lead) by done.
    rewrite (no_backslash_pattern_of rest) by done.
    assert (existsb (Ascii.eqb "\") n = false) as ->; [|done].
    apply no_backslash_spec. apply name_safe_no; auto. }
  rewrite <- !(assoc_L (++)). rewrite run_to_name by done.
  rewrite run_name_safe by done.
  change (L ">[^/]+)" ++ Templates.pattern_of rest ++ L "$")
    with (">"%char :: L "[^/]+)" ++ Templates.pattern_of rest ++ L "$").
  rewrite run_cons, step_name_close. rewrite !(app_nil_l n).
  destruct (decide (n = [])) as [->|Hne].
  - by rewrite !bool_decide_true, run_stuck.
  - rewrite !bool_decide_false by done. rewrite Hascii, Hid.
    cbn [negb]. by rewrite run_stuck.
Qed.

End BraceErrors.

(** ** [from_function]: explicit names and defaults *)
Section FromFunctionMore.
Context {V W Sig Schema : Type}.
Variable json_schema : Sig -> result exn Schema.
Variable validate : Sig -> list (str * V) -> result str (list (str * V)).
Implicit Types (f : Templates.callable V W Sig)
  (t : Templates.ResourceTemplate V W Schema).

Abbreviation from_function2 := (Templates.from_function json_schema validate).

(** X7: an explicit name decides alone.  With a non-empty name other than
    [<lambda>], [from_function] succeeds exactly when the schema of the
    signature can be derived, whatever the producer's own [__name__] is (a
    lambda, or a callable without [__name__], is accepted), and the template
    carries that name.  The explicit name [<lambda>] is refused like an
    anonymous producer, and an empty explicit name counts as none. *)
Theorem from_function_explicit_name f tpl n desc mime :
  n <> [] -> n <> Templates.lambda_name ->
  ((exists t, from_function2 f tpl (Some n) desc mime = Return t)
   <-> exists p, json_schema (Templates.fn_sig f) = Return p)
  /\ (forall t, from_function2 f tpl (Some n) desc mime = Return t ->
                Templates.name t = n)
  /\ from_function2 f tpl (Some Templates.lambda_name) desc mime
     = Raise (ValueError (L "You must provide a name for lambda functions") None)
  /\ from_function2 f tpl (Some []) desc mime
     = from_function2 f tpl None desc mime.
Proof.
  intros Hne Hlam. unfold Templates.from_function.
  destruct n as [|c n]; [done|]. simpl.
  rewrite (bool_decide_false (c :: n = _)) by done. split_and!.
  - destruct (json_schema _) as [p|e]; split; try by eauto.
    + by intros [? ?].
    + by intros [? ?].
  - intros t. destruct (json_schema _); [|done]. by intros [= <-].
  - done.
  - done.
Qed.

(** X8: the description of a template made by [from_function] is never
    [None]: it is the description given when that is non-empty, else the
    docstring of the producer when that is non-empty, else the empty string;
    and the MIME type is the one given when non-empty, else [text/plain]. *)
Theorem from_function_defaults f tpl nm desc mime t :
  from_function2 f tpl nm desc mime = Return t ->
  (exists d, Templates.description t = Some d
             /\ (forall x, desc = Some x -> x <> [] -> d = x)
             /\ (Templates.truthy_str desc = None ->
                 forall x, Templates.fn_doc f = Some x -> x <> [] -> d = x)
             /\ (Templates.truthy_str desc = None ->
                 Templates.truthy_str (Templates.fn_doc f) = None -> d = []))
  /\ (forall m, mime = Some m -> m <> [] -> Templates.mime_type t = m)
  /\ (Templates.truthy_str mime = None -> Templates.mime_type t = L "text/plain").
Proof.
  unfold Templates.from_function.
  destruct (match Templates.truthy_str nm with
            | Some n => _ | None => _ end) as [n|e]; [|done].
  case_bool_decide; [done|].
  destruct (json_schema _); [|done]. intros [= <-]. simpl. split_and!.
  - eexists. split; [done|]. split_and!.
    + intros [|c x] -> Hx; [done|]. done.
    + intros -> [|c x] -> Hx; [done|]. done.
    + by intros -> ->.
  - by intros [|c m] -> Hm.
  - by intros ->.
Qed.

End FromFunctionMore.

(** ** [create_resource]: when it succeeds, and what it runs *)
Section CreateResourceMore.
Context {V W Sig Schema : Type}.
Variable json_schema : Sig -> result exn Schema.
Variable validate : Sig -> list (str * V) -> result str (list (str * V)).
Implicit Types (f : Templates.callable V W Sig)
  (t : Templates.ResourceTemplate V W Schema)
  (w : Templates.world V W) (r : Templates.Resource V W).

Abbreviation from_function3 := (Templates.from_function json_schema validate).

(** X10: whatever the outcome of a resolution, the body of the producer
    runs at most once, on the validated (coerced) arguments and not on the
    raw parameters; when validation rejects the parameters nothing runs and
    the world is left as it was. *)
Theorem create_resource_invocations f tpl nm desc mime t uri params w res w' :
  from_function3 f tpl nm desc mime = Return t ->
  Templates.create_resource t uri params w = (res, w') ->
  match validate (Templates.fn_sig f) params with
  | Raise _ => w' = w
  | Return args => Templates.calls w' = Templates.calls w ++ [args]
  end.
Proof.
  intros (_ & Hfunc & _)%(from_function_fields json_schema validate).
  unfold Templates.create_resource. rewrite Hfunc.
  unfold Templates.validate_call.
  destruct (validate _ _) as [args|details]; [|by intros [= _ <-]].
  destruct (Templates.invoke f args w) as [[o|e] w1] eqn:Hi;
    apply invoke_calls in Hi.
  - destruct (Templates.settle o w1) as [[v|e] w2] eqn:Hs;
      apply settle_calls in Hs; intros [= _ <-]; by rewrite Hs, Hi.
  - intros [= _ <-]. done.
Qed.

End CreateResourceMore.

(** ** The upsert, step by step *)
Section UpsertFacts.
Import Claude Upsert.
Open Scope string_scope.

Lemma try_update_not_object h cf file_spec server_name we wp env_vars fs :
  (forall c, read_json fs cf <> Some (JObj c)) ->
  try_update h cf file_spec server_name we wp env_vars fs = None.
Proof.
  intros Hc. unfold try_update.
  destruct (read_json fs cf) as [[| | | | |c]|]; simpl; try done.
  - by destruct (is_substring _ _).
  - by destruct (existsb _ _).
  - by destruct (Hc c).
Qed.

Lemma try_update_object h cf file_spec server_name we wp env_vars fs c :
  read_json fs cf = Some (JObj c) ->
  try_update h cf file_spec server_name we wp env_vars fs
  = next_config h file_spec server_name we wp env_vars c ≫= write_json fs cf.
Proof.
  intros Hread. unfold try_update, next_config, servers_table. rewrite Hread.
  simpl.
  destruct (c !! "mcpServers") as [sv|] eqn:Hsv.
  - rewrite bool_decide_true by eauto. simpl. rewrite Hsv. simpl.
    destruct sv as [| | | | |s]; simpl; try done.
    + destruct (is_substring _ _); simpl; [done|].
      by destruct (absolute_spec _ _).
    + destruct (existsb _ _); simpl; [done|].
      by destruct (absolute_spec _ _).
    + unfold next_env. destruct (s !! server_name) as [entry|] eqn:He.
      * rewrite bool_decide_true by eauto. simpl.
        destruct (py_contains "env" entry) as [[|]|]; simpl; [| |done].
        -- destruct (py_getitem entry "env") as [ex|]; simpl; [|done].
           destruct (match env_vars with Some _ => _ | None => _ end);
             simpl; [|done].
           by destruct (absolute_spec _ _).
        -- by destruct (absolute_spec _ _).
      * rewrite bool_decide_false by (by intros [? ?]). simpl.
        by destruct (absolute_spec _ _).
  - rewrite bool_decide_false by (by intros [? ?]). simpl.
    rewrite lookup_insert_eq. simpl.
    unfold next_env. rewrite lookup_empty.
    rewrite bool_decide_false by (by intros [? ?]). simpl.
    destruct (absolute_spec _ _); simpl; [|done].
    by rewrite insert_insert_eq.
Qed.

Lemma update_true_inv h file_spec server_name we wp env_vars fs fs' :
  update_claude_config h file_spec server_name we wp env_vars fs
  = Return (true, fs') ->
  exists dir,
    get_claude_config_path h fs = Return (Some dir)
    /\ exists_ fs (dir ++ [config_name])%list = Return true
    /\ try_update h (dir ++ [config_name])%list file_spec server_name we wp
         env_vars fs = Some fs'.
Proof.
  unfold update_claude_config.
  destruct (get_claude_config_path h fs) as [[dir|]|]; [|done..].
  destruct (exists_ fs _) as [[]|] eqn:He; [|done..].
  destruct (try_update _ _ _ _ _ _ _ _) as [fs''|] eqn:Ht; [|done].
  intros [= <-]. eauto.
Qed.

Lemma update_run h file_spec server_name we wp env_vars fs dir :
  get_claude_config_path h fs = Return (Some dir) ->
  exists_ fs (dir ++ [config_name])%list = Return true ->
  update_claude_config h file_spec server_name we wp env_vars fs
  = match try_update h (dir ++ [config_name])%list file_spec server_name we wp
            env_vars fs with
    | Some fs' => Return (true, fs')
    | None => Return (false, fs)
    end.
Proof. intros Hd He. unfold update_claude_config. by rewrite Hd, He. Qed.

(** The directory found depends on the probe of that directory only. *)
Lemma get_path_probe h fs dir :
  get_claude_config_path h fs = Return (Some dir) ->
  forall fs2, exists_ fs2 dir = Return true ->
              get_claude_config_path h fs2 = Return (Some dir).
Proof.
  unfold get_claude_config_path.
  destruct (if String.eqb (platform h) "win32" then _ else _) as [below|];
    [|done].
  destruct (home h) as [hm|]; [|done].
  destruct (exists_ fs _) as [[]|]; [|done..].
  intros [= <-] fs2 ->. done.
Qed.

Lemma get_path_exists h fs dir :
  get_claude_config_path h fs = Return (Some dir) ->
  exists_ fs dir = Return true.
Proof.
  unfold get_claude_config_path.
  destruct (if String.eqb (platform h) "win32" then _ else _) as [below|];
    [|done].
  destruct (home h) as [hm|]; [|done].
  destruct (exists_ fs _) as [[]|] eqn:Hp; [|done..].
  by intros [= <-].
Qed.

Lemma read_json_File fs cf j :
  read_json fs cf = Some j -> entries fs !! cf = Some (File (Some j)).
Proof.
  unfold read_json. by destruct (entries fs !! cf) as [[|[?|]|]|]; intros [= ->].
Qed.

Lemma write_json_Some fs cf j fs' :
  write_json fs cf j = Some fs' ->
  read_only fs = false
  /\ fs' = FS (<[cf := File (Some j)]> (entries fs)) false.
Proof.
  unfold write_json.
  destruct (entries fs !! cf) as [[| |]|]; try done;
    destruct (read_only fs); try done; by intros [= <-].
Qed.

Lemma write_json_ok fs cf j j' :
  read_json fs cf = Some j -> read_only fs = false ->
  write_json fs cf j' = Some (FS (<[cf := File (Some j')]> (entries fs)) false).
Proof.
  intros Hr%read_json_File Hro. unfold write_json. by rewrite Hr, Hro.
Qed.

Lemma truthy_union (N : gmap string json) X :
  truthy (JObj N) = true -> truthy (JObj (N ∪ X)) = true.
Proof.
  simpl. rewrite !negb_true_iff, !bool_decide_eq_false, !map_size_empty_iff.
  intros HN HU. apply HN. apply map_eq. intros k. rewrite lookup_empty.
  destruct (N !! k) as [v|] eqn:Hk; [|done].
  assert ((N ∪ X) !! k = Some v) as Hl by by apply lookup_union_Some_l.
  by rewrite HU, lookup_empty in Hl.
Qed.

(** With new variables supplied, the environment is the new variables laid
    over something. *)
Lemma next_env_merged s server_name new env1 :
  next_env s server_name (Some new) = Some env1 ->
  truthy (env_value (Some new)) = true ->
  exists X, env1 = JObj ((JStr <$> new) ∪ X).
Proof.
  unfold next_env. intros H Ht.
  destruct (s !! server_name) as [entry|]; simpl in H.
  - destruct (py_contains "env" entry) as [[|]|]; simpl in H; [| |done].
    + destruct (py_getitem entry "env") as [ex|]; simpl in H; [|done].
      simpl in Ht. rewrite Ht in H. destruct ex; simplify_eq/=. by eexists.
    + simplify_eq. exists ∅. by rewrite (right_id_L ∅ (∪)).
  - simplify_eq. exists ∅. by rewrite (right_id_L ∅ (∪)).
Qed.

Lemma server_config_env args env :
  server_config args env !! "env" = if truthy env then Some env else None.
Proof.
  unfold server_config. destruct (truthy env).
  - by rewrite lookup_insert_eq.
  - by rewrite lookup_insert_ne, lookup_singleton_ne.
Qed.

(** The entry a second, identical update computes is the entry of the
    first. *)
Lemma next_env_again s server_name env_vars args env1 :
  next_env s server_name env_vars = Some env1 ->
  exists env2,
    next_env (<[server_name := JObj (server_config args env1)]> s)
      server_name env_vars = Some env2
    /\ server_config args env2 = server_config args env1.
Proof.
  intros H1. unfold next_env at 1. rewrite lookup_insert_eq. simpl.
  rewrite server_config_env. destruct (truthy env1) eqn:Ht1.
  - rewrite bool_decide_true by eauto. simpl.
    destruct env_vars as [new|]; [|by eauto].
    destruct (truthy (env_value (Some new))) eqn:Htn; [|by eauto].
    destruct (next_env_merged _ _ _ _ H1 Htn) as [X ->]. simpl.
    eexists. split; [done|].
    by rewrite (assoc_L (∪)), (idemp_L (∪)).
  - rewrite bool_decide_false by (by intros [? ?]). simpl.
    eexists. split; [done|]. unfold server_config. rewrite Ht1.
    destruct env_vars as [new|]; [|done].
    destruct (truthy (env_value (Some new))) eqn:Htn; [|done].
    destruct (next_env_merged _ _ _ _ H1 Htn) as [X ->].
    by rewrite truthy_union in Ht1.
Qed.

Lemma servers_table_of c s :
  servers_table c = Some s -> servers_of (Some (JObj c)) = s.
Proof.
  unfold servers_table. simpl.
  destruct (c !! "mcpServers") as [[| | | | |s']|]; by intros [= <-].
Qed.

Lemma try_update_inv h cf file_spec server_name we wp env_vars fs fs' :
  try_update h cf file_spec server_name we wp env_vars fs = Some fs' ->
  exists c j',
    read_json fs cf = Some (JObj c)
    /\ next_config h file_spec server_name we wp env_vars c = Some j'
    /\ write_json fs cf j' = Some fs'.
Proof.
  intros Htry.
  destruct (read_json fs cf) as [[| | | | |c]|] eqn:Hread;
    try (rewrite try_update_not_object in Htry;
         [done|by rewrite Hread]).
  rewrite (try_update_object _ _ _ _ _ _ _ _ c Hread) in Htry.
  apply bind_Some in Htry as (j' & Hnext & Hwrite). by exists c, j'.
Qed.

(** X11: the upsert is idempotent: repeating a successful update with the
    same arguments succeeds again and leaves the file system exactly as the
    first update left it. *)
Theorem upsert_idempotent h file_spec server_name we wp env_vars fs fs' :
  update_claude_config h file_spec server_name we wp env_vars fs
  = Return (true, fs') ->
  update_claude_config h file_spec server_name we wp env_vars fs'
  = Return (true, fs').
Proof.
  intros (dir & Hdir & Hex & Htry)%update_true_inv.
  set (cf := (dir ++ [config_name])%list) in *.
  apply try_update_inv in Htry as (c & j' & Hread & Hnext & Hwrite).
  apply write_json_Some in Hwrite as [Hro ->].
  unfold next_config in Hnext.
  apply bind_Some in Hnext as (s & Hs & Hnext).
  apply bind_Some in Hnext as (env1 & Henv & Hnext).
  apply bind_Some in Hnext as (spec & Hspec & [= <-]).
  set (args := (uv_args we wp ++ ["fastmcp"; "run"; spec])%list) in *.
  set (s' := <[server_name := JObj (server_config args env1)]> s).
  set (c' := <["mcpServers" := JObj s']> c).
  set (fs' := FS (<[cf := File (Some (JObj c'))]> (entries fs)) false).
  assert (dir <> cf) as Hne.
  { unfold cf. intros Heq%(f_equal length). rewrite length_app in Heq.
    simpl in Heq. lia. }
  assert (read_json fs' cf = Some (JObj c')) as Hread'.
  { unfold read_json, fs'. simpl. by rewrite lookup_insert_eq. }
  rewrite (update_run _ _ _ _ _ _ fs' dir).
  - rewrite (try_update_object _ _ _ _ _ _ _ _ c' Hread').
    destruct (next_env_again s server_name env_vars args env1 Henv)
      as (env2 & Henv2 & Hcfg).
    assert (next_config h file_spec server_name we wp env_vars c'
            = Some (JObj c')) as ->.
    { unfold next_config, servers_table, c'. rewrite lookup_insert_eq. simpl.
      fold s' in Henv2. rewrite Henv2. simpl. rewrite Hspec. simpl.
      fold args. rewrite Hcfg. unfold s'.
      by rewrite !insert_insert_eq. }
    simpl. rewrite (write_json_ok fs' cf (JObj c') (JObj c') Hread' eq_refl).
    unfold fs'. simpl. by rewrite insert_insert_eq.
  - apply (get_path_probe h fs dir Hdir).
    pose proof (get_path_exists h fs dir Hdir) as Hp.
    unfold exists_, fs' in *. simpl. by rewrite lookup_insert_ne.
  - unfold exists_, fs'. simpl. by rewrite lookup_insert_eq.
Qed.

Lemma next_env_tidy s server_name env_vars :
  (s !! server_name = None
   \/ exists e, s !! server_name = Some (JObj e)
                /\ (e !! "env" = None \/ exists m, e !! "env" = Some (JObj m))) ->
  is_Some (next_env s server_name env_vars).
Proof.
  unfold next_env. intros [->|(e & -> & He)]; [by eauto|]. simpl.
  destruct He as [He|[m He]].
  - rewrite bool_decide_false by (rewrite He; by intros [? ?]). by eauto.
  - rewrite bool_decide_true by (rewrite He; eauto). simpl. rewrite He. simpl.
    destruct env_vars as [new|]; [|by eauto].
    destruct (truthy _); simpl; by eauto.
Qed.

(** X12: on a configuration of the expected layout (the table of servers,
    the entry of the server and its environment are objects where they
    exist), with a file path that resolves and a writable file, the update
    succeeds. *)
Theorem upsert_succeeds_on_tidy_config
    h file_spec server_name we wp env_vars fs dir c :
  get_claude_config_path h fs = Return (Some dir) ->
  read_json fs (dir ++ [config_name])%list = Some (JObj c) ->
  tidy c server_name ->
  is_Some (absolute_spec h file_spec) ->
  read_only fs = false ->
  exists fs',
    update_claude_config h file_spec server_name we wp env_vars fs
    = Return (true, fs').
Proof.
  intros Hdir Hread Htidy [spec Hspec] Hro.
  rewrite (update_run _ _ _ _ _ _ fs dir Hdir).
  2:{ unfold exists_. by rewrite (read_json_File _ _ _ Hread). }
  rewrite (try_update_object _ _ _ _ _ _ _ _ c Hread).
  assert (exists s, servers_table c = Some s
                    /\ is_Some (next_env s server_name env_vars))
    as (s & Hs & [env Henv]).
  { unfold servers_table. destruct Htidy as [->|(s & -> & Hs)].
    - exists ∅. split; [done|]. apply next_env_tidy. left. apply lookup_empty.
    - exists s. split; [done|]. by apply next_env_tidy. }
  unfold next_config. rewrite Hs. simpl. rewrite Henv. simpl.
  rewrite Hspec. simpl.
  rewrite (write_json_ok fs _ (JObj c) _ Hread Hro). by eexists.
Qed.

Lemma server_config_keys args env :
  server_config args env !! "command" = Some (JStr "uv")
  /\ server_config args env !! "args" = Some (JArr (JStr <$> args))
  /\ forall k, k <> "command" -> k <> "args" -> k <> "env" ->
               server_config args env !! k = None.
Proof.
  unfold server_config. destruct (truthy env); split_and!.
  - by rewrite !lookup_insert_ne, lookup_singleton_eq.
  - by rewrite lookup_insert_ne, lookup_insert_eq.
  - intros k ? ? ?. by rewrite !lookup_insert_ne, lookup_singleton_ne.
  - by rewrite lookup_insert_ne, lookup_singleton_eq.
  - by rewrite lookup_insert_eq.
  - intros k ? ? ?. by rewrite !lookup_insert_ne, lookup_singleton_ne.
Qed.

(** X13: a successful update replaces the entry of the server as a whole.
    The new entry has the command [uv], the arguments [run --with fastmcp],
    the editable directory and the non-empty packages, then
    [fastmcp run <the absolute file spec>], and besides ["env"] no other key:
    whatever else the old entry held is gone.  A missing table of servers is
    created. *)
Theorem upsert_entry h file_spec server_name we wp env_vars fs fs' :
  update_claude_config h file_spec server_name we wp env_vars fs
  = Return (true, fs') ->
  exists dir spec entry,
    get_claude_config_path h fs = Return (Some dir)
    /\ absolute_spec h file_spec = Some spec
    /\ servers_of (read_json fs' (dir ++ [config_name])%list)
       = <[server_name := JObj entry]>
           (servers_of (read_json fs (dir ++ [config_name])%list))
    /\ entry !! "command" = Some (JStr "uv")
    /\ entry !! "args"
       = Some (JArr (JStr <$> (uv_args we wp ++ ["fastmcp"; "run"; spec])%list))
    /\ forall k, k <> "command" -> k <> "args" -> k <> "env" ->
                 entry !! k = None.
Proof.
  intros (dir & Hdir & Hex & Htry)%update_true_inv.
  apply try_update_inv in Htry as (c & j' & Hread & Hnext & Hwrite).
  apply write_json_Some in Hwrite as [Hro ->].
  unfold next_config in Hnext.
  apply bind_Some in Hnext as (s & Hs & Hnext).
  apply bind_Some in Hnext as (env1 & Henv & Hnext).
  apply bind_Some in Hnext as (spec & Hspec & [= <-]).
  exists dir, spec, (server_config (uv_args we wp ++ ["fastmcp"; "run"; spec]) env1).
  destruct (server_config_keys (uv_args we wp ++ ["fastmcp"; "run"; spec]) env1)
    as (Hc & Ha & Hk).
  split_and!; try done.
  rewrite Hread, (servers_table_of c s Hs).
  unfold read_json. simpl. rewrite lookup_insert_eq. simpl.
  by rewrite lookup_insert_eq.
Qed.

(** X14: the update refuses, returning [False] and writing nothing, when
    the file cannot be read as a JSON object, when its ["mcpServers"] is not
    an object, when the file path cannot be resolved, and when the file
    system is read-only. *)
Theorem upsert_refuses h file_spec server_name we wp env_vars fs dir present :
  get_claude_config_path h fs = Return (Some dir) ->
  exists_ fs (dir ++ [config_name])%list = Return present ->
  ((forall c, read_json fs (dir ++ [config_name])%list <> Some (JObj c))
   \/ (exists c v, read_json fs (dir ++ [config_name])%list = Some (JObj c)
                   /\ c !! "mcpServers" = Some v /\ forall s, v <> JObj s)
   \/ absolute_spec h file_spec = None
   \/ read_only fs = true) ->
  update_claude_config h file_spec server_name we wp env_vars fs
  = Return (false, fs).
Proof.
  intros Hdir Hex Hbad. unfold update_claude_config. rewrite Hdir, Hex.
  destruct present; [|done].
  assert (try_update h (dir ++ [config_name])%list file_spec server_name we wp
            env_vars fs = None) as ->; [|done].
  destruct (try_update _ _ _ _ _ _ _ _) as [fs'|] eqn:Htry; [|done].
  exfalso.
  apply try_update_inv in Htry as (c & j' & Hread & Hnext & Hwrite).
  apply write_json_Some in Hwrite as [Hro _].
  unfold next_config in Hnext.
  apply bind_Some in Hnext as (s & Hs & Hnext).
  apply bind_Some in Hnext as (env1 & Henv & Hnext).
  apply bind_Some in Hnext as (spec & Hspec & _).
  destruct Hbad as [Hno|[(c2 & v & Hread2 & Hv & Hnot)|[Hnone|Hro2]]].
  - by destruct (Hno c).
  - rewrite Hread in Hread2. simplify_eq. unfold servers_table in Hs.
    rewrite Hv in Hs. destruct v; try done. by destruct (Hnot m).
  - by rewrite Hnone in Hspec.
  - by rewrite Hro in Hro2.
Qed.

Lemma rsplit1_absent sep s : ~ occurs sep s -> rsplit1 sep s = None.
Proof.
  unfold occurs. induction s as [|c s IH]; simpl; [done|].
  intros Hno. rewrite IH by tauto.
  destruct (Ascii.eqb_spec c sep) as [->|]; [|done]. tauto.
Qed.

Lemma rsplit1_last sep a b :
  ~ occurs sep b -> rsplit1 sep (a +:+ String sep b) = Some (a, b).
Proof.
  intros Hb. induction a as [|c a IH]; simpl.
  - by rewrite (rsplit1_absent sep b Hb), Ascii.eqb_refl.
  - by rewrite IH.
Qed.

(** X15: the file spec is split at its last colon.  A spec without colon
    is made absolute as a whole; in [path:object], where [object] has no
    colon, only [path] is made absolute and [:object] is kept as it is; and
    when the path cannot be resolved there is no result. *)
Theorem absolute_spec_split h file_spec :
  (~ occurs ":" file_spec -> absolute_spec h file_spec = resolve h file_spec)
  /\ (forall file_path server_object,
        file_spec = file_path +:+ String ":" server_object ->
        ~ occurs ":" server_object ->
        absolute_spec h file_spec
        = (fun p => p +:+ String ":" server_object) <$> resolve h file_path).
Proof.
  unfold absolute_spec. split.
  - intros Hno. by rewrite rsplit1_absent.
  - intros a b -> Hb. rewrite rsplit1_last by done.
    by destruct (resolve h a).
Qed.

End UpsertFacts.

(** ** Further concrete runs *)
Section MoreRuns.
Import Re.

Lemma matches_result_shape_witness :
  let d := [(L "city", Some (L "paris"))] in
  map fst d = Shape.placeholders Demo.weather_shape
  /\ Forall (fun b => exists v, snd b = Some v /\ Shape.segment v) d.
Proof.
  apply (matches_result_shape Demo.weather_template Demo.weather_shape
           Demo.weather_uri).
  - by apply wfb_wf.
  - reflexivity.
  - reflexivity.
Defined.

Lemma matches_accepted_uris_witness :
  exists d,
    Templates.matches Demo.weather_template (Demo.weather_uri ++ [nl])
    = Some (Return (Some d)).
Proof.
  apply (matches_accepted_uris Demo.weather_template Demo.weather_shape).
  - by apply wfb_wf.
  - reflexivity.
  - exists [L "paris"]. split; [by apply assignment_dec|]. by right.
Defined.

Lemma matches_empty_uri_witness :
  Templates.matches Demo.weather_template [] = Some (Return None).
Proof.
  apply (matches_empty_uri Demo.weather_template Demo.weather_shape).
  - by apply wfb_wf.
  - reflexivity.
  - by vm_compute.
Defined.

Lemma matches_unclosed_placeholder_witness :
  Templates.matches (Demo.template_of Demo.get_weather (L "a/{x")) (L "a/b")
  = Some (Raise UnterminatedName).
Proof.
  by apply (matches_unclosed_placeholder _ (L "a/") (L "x")).
Defined.

Lemma matches_stray_closing_brace_witness :
  Templates.matches (Demo.template_of Demo.get_weather (L "a/b}/{c}")) (L "a/b/c")
  = Some (Raise UnbalancedParenthesis).
Proof.
  by apply (matches_stray_closing_brace _ (L "a/b") (L "/{c}")).
Defined.

Lemma matches_bad_placeholder_name_witness :
  Templates.matches (Demo.template_of Demo.get_weather (L "a/{1x}/b")) (L "a/7/b")
  = Some (Raise (BadGroupName (L "1x"))).
Proof.
  by apply (matches_bad_placeholder_name _ (L "a/") (L "1x") (L "/b")).
Defined.

Lemma from_function_explicit_name_witness :
  exists t,
    Demo.from_function Demo.anonymous (L "weather://{city}/current")
      (Some (L "weather")) None None
    = Return t.
Proof.
  apply (proj1 (from_function_explicit_name Demo.json_schema Demo.validate
                  Demo.anonymous (L "weather://{city}/current") (L "weather")
                  None None ltac:(done) ltac:(done))).
  by eexists.
Defined.

Lemma from_function_defaults_witness :
  Templates.description Demo.weather_template = Some (L "Weather of a city.")
  /\ Templates.mime_type Demo.weather_template = L "text/plain".
Proof.
  destruct (from_function_defaults Demo.json_schema Demo.validate
              Demo.get_weather (L "weather://{city}/current") None None None
              Demo.weather_template eq_refl)
    as ((d & Hd & _ & Hdoc & _) & _ & Hmime).
  split.
  - rewrite Hd. f_equal. by apply Hdoc.
  - by apply Hmime.
Defined.

Lemma create_resource_invocations_witness :
  Demo.world_after Demo.item_template (L "item://abc") Demo.abc Demo.w0
  = Demo.w0.
Proof.
  exact (create_resource_invocations Demo.json_schema Demo.validate Demo.item
           (L "item://{id}") None None None Demo.item_template (L "item://abc")
           Demo.abc Demo.w0 _ _ eq_refl eq_refl).
Defined.

End MoreRuns.

Section MoreClaudeRuns.
Import Claude Upsert Cases.
Open Scope string_scope.

Lemma mac_run :
  update_claude_config mac "server.py:app" "demo" None (Some ["httpx"])
    (Some {["TOKEN" := "new"]}) mac_fs
  = Return (true, mac_fs_after).
Proof. vm_compute. reflexivity. Qed.

Lemma upsert_idempotent_witness :
  update_claude_config mac "server.py:app" "demo" None (Some ["httpx"])
    (Some {["TOKEN" := "new"]}) mac_fs_after
  = Return (true, mac_fs_after).
Proof. exact (upsert_idempotent _ _ _ _ _ _ _ _ mac_run). Defined.

Lemma upsert_succeeds_on_tidy_config_witness :
  exists fs',
    update_claude_config mac "server.py:app" "demo" None None None mac_fs
    = Return (true, fs').
Proof.
  apply (upsert_succeeds_on_tidy_config mac "server.py:app" "demo" None None
           None mac_fs mac_claude_dir old_settings).
  - reflexivity.
  - reflexivity.
  - right. eexists. split; [reflexivity|]. right. eexists.
    split; [reflexivity|]. right. eexists. reflexivity.
  - by eexists.
  - reflexivity.
Defined.

Lemma upsert_entry_witness :
  exists entry,
    servers_of (read_json mac_fs_after mac_config_file)
    = <["demo" := JObj entry]> (servers_of (read_json mac_fs mac_config_file))
    /\ entry !! "command" = Some (JStr "uv")
    /\ entry !! "disabled" = None.
Proof.
  destruct (upsert_entry _ _ _ _ _ _ _ _ mac_run)
    as (dir & spec & entry & Hdir & _ & Hs & Hc & _ & Hk).
  assert (dir = mac_claude_dir) as ->
    by (vm_compute in Hdir; injection Hdir as <-; reflexivity).
  exists entry. split_and!; [exact Hs|exact Hc|by apply Hk].
Defined.

Lemma upsert_refuses_witness :
  update_claude_config mac "server.py:app" "demo" None None None array_fs
  = Return (false, array_fs).
Proof.
  apply (upsert_refuses mac "server.py:app" "demo" None None None array_fs
           mac_claude_dir true).
  - reflexivity.
  - reflexivity.
  - left. intros c. by vm_compute.
Defined.

Lemma absolute_spec_split_witness :
  absolute_spec mac "server.py:app" = Some "/abs/server.py:app".
Proof.
  rewrite (proj2 (absolute_spec_split mac "server.py:app") "server.py" "app");
    [reflexivity|reflexivity|].
  unfold occurs. simpl. intuition discriminate.
Defined.

End MoreClaudeRuns.


(** ** [matches]: adjacent placeholders *)
Section Greedy.
Context {V W Schema : Type}.
Implicit Types (t : Templates.ResourceTemplate V W Schema).
Import Re.

Lemma mseq_lits_prefix l ns pos s g :
  mseq (lits l ++ ns) pos (l ++ s) g = mseq ns (pos + length l) s g.
Proof.
  revert pos. induction l as [|c l IH]; intros pos; simpl.
  - by rewrite Nat.add_0_r.
  - rewrite Ascii.eqb_refl. simpl. rewrite app_nil_r.
    fold (lits l). rewrite IH. f_equal. lia.
Qed.

Lemma mnode_hole_eq n pos s g :
  mnode (hole n) pos s g
  = map (fun k => (pos + k, drop k s, (n, take k s) :: g))
      (rev (seq 1 (run_len (ASet true [slash]) s))).
Proof.
  unfold hole. cbn [mnode rep_counts].
  induction (rev (seq 1 (run_len (ASet true [slash]) s))) as [|k ks IH];
    [done|].
  cbn [map flat_map app] in *. rewrite IH. cbn [set_group]. do 3 f_equal.
  by rewrite Nat.add_comm, Nat.add_sub.
Qed.

Lemma run_len_all a s :
  forallb (atom_ok a) s = true -> run_len a s = length s.
Proof.
  induction s as [|c s IH]; simpl; [done|].
  intros [-> Hs]%andb_true_iff. by rewrite IH.
Qed.

(** X17: two placeholders with nothing between them split the text
    greedily: at the end of the URI the first takes everything but the last
    character and the second takes that character. *)
Theorem matches_adjacent_placeholders t lead a b w c :
  Shape.wf (Shape.Shape lead [(a, []); (b, [])]) ->
  Templates.uri_template t = Shape.render (Shape.Shape lead [(a, []); (b, [])]) ->
  w <> [] -> ~ In slash (w ++ [c]) ->
  Templates.matches t (lead ++ w ++ [c])
  = Some (Return (Some [(a, Some w); (b, Some [c])])).
Proof.
  intros HT Ht Hw Hslash.
  rewrite (matches_render t _ _ HT Ht).
  unfold nodes_of. cbn [Shape.lead Shape.slots flat_map slot_nodes fst snd lits
                        map app Shape.placeholders].
  cbn [mseq mnode Nat.eqb flat_map]. rewrite app_nil_r.
  rewrite mseq_lits_prefix. cbn [mseq].
  rewrite mnode_hole_eq.
  rewrite run_len_all by (by apply not_slash_spec).
  rewrite length_app. cbn [length]. rewrite Nat.add_1_r.
  destruct (length w) as [|m] eqn:Hlen; [by destruct w|].
  rewrite !seq_S, !rev_app_distr. cbn [rev app map flat_map Nat.add].
  replace (S (S m)) with (length (w ++ [c]))
    by (rewrite length_app; simpl; lia).
  rewrite drop_all, firstn_all. rewrite <- Hlen.
  rewrite drop_app_length, take_app_length.
  rewrite !mnode_hole_eq. cbn [run_len seq rev map flat_map app].
  assert (atom_ok (ASet true [slash]) c = true) as ->.
  { assert (forallb (atom_ok (ASet true [slash])) (w ++ [c]) = true) as Hall
      by by apply not_slash_spec.
    rewrite forallb_app in Hall. apply andb_true_iff in Hall as [_ Hc].
    simpl in Hc. by rewrite andb_true_r in Hc. }
  cbn [seq rev map flat_map app mnode at_end drop take].
  unfold groupdict. cbn [map lookup_group].
  destruct HT as [_ Hnd]. cbn in Hnd.
  apply NoDup_cons in Hnd as [Hab _].
  rewrite (bool_decide_false (a = b)) by set_solver.
  by rewrite (bool_decide_true (a = a)), (bool_decide_true (b = b)).
Qed.

End Greedy.

(** ** The command line written for a server *)
Section CommandLine.
Import Claude.
Open Scope string_scope.

Lemma with_packages_filter (pkgs : list string) :
  flat_map (fun pkg => if String.eqb pkg "" then [] else ["--with"; pkg]) pkgs
  = flat_map (fun pkg => ["--with"; pkg]) (filter (fun pkg => pkg <> "") pkgs).
Proof.
  induction pkgs as [|p pkgs IH]; [done|]. cbn [flat_map].
  rewrite filter_cons. destruct (String.eqb_spec p "") as [->|Hne].
  - rewrite decide_False by naive_solver. by rewrite IH.
  - rewrite decide_True by done. cbn [flat_map]. by rewrite IH.
Qed.

(** X16: the [uv] command line starts with [run --with fastmcp], continues
    with [--with-editable dir] when a directory is given, then with one
    [--with pkg] for each package that is not the empty string, in order; an
    empty list of packages is the same as none.  It never holds an empty
    argument (the directory not being the empty string). *)
Theorem uv_args_shape (we : option string) (wp : option (list string)) :
  uv_args we wp
  = (["run"; "--with"; "fastmcp"]
       ++ match we with Some dir => ["--with-editable"; dir] | None => [] end
       ++ flat_map (fun pkg => ["--with"; pkg])
            (filter (fun pkg => pkg <> "") (default [] wp)))%list
  /\ (we <> Some "" -> ~ In "" (uv_args we wp)).
Proof.
  assert (uv_args we wp
          = (["run"; "--with"; "fastmcp"]
               ++ match we with Some dir => ["--with-editable"; dir] | None => [] end
               ++ flat_map (fun pkg => ["--with"; pkg])
                    (filter (fun pkg => pkg <> "") (default [] wp)))%list)
    as Heq.
  { unfold uv_args. destruct we as [dir|], wp as [pkgs|]; simpl;
      rewrite ?with_packages_filter; done. }
  split; [done|]. intros Hwe. rewrite Heq.
  rewrite !in_app_iff. intros [Hin|[Hin|Hin]].
  - simpl in Hin. intuition discriminate.
  - destruct we as [dir|]; simpl in Hin; [|done].
    destruct Hin as [?|[->|[]]]; [discriminate|]. by apply Hwe.
  - apply in_flat_map in Hin as (p & Hp & Hin).
    apply list_elem_of_In, list_elem_of_filter in Hp as [Hp _].
    simpl in Hin. destruct Hin as [?|[->|[]]]; [discriminate|]. by apply Hp.
Qed.

End CommandLine.

Section LastRuns.
Import Claude.

Lemma matches_adjacent_placeholders_witness :
  Templates.matches (Demo.template_of Demo.get_weather (L "p/{a}{b}")) (L "p/xyz")
  = Some (Return (Some [(L "a", Some (L "xy")); (L "b", Some (L "z"))])).
Proof.
  apply (matches_adjacent_placeholders _ (L "p/") (L "a") (L "b") (L "xy") "z").
  - by apply wfb_wf.
  - reflexivity.
  - done.
  - simpl. intuition discriminate.
Defined.

Lemma uv_args_shape_witness :
  ~ In ""%string (uv_args (Some "/src"%string) (Some ["httpx"; ""]%string)).
Proof.
  by apply (proj2 (uv_args_shape (Some "/src"%string) (Some ["httpx"; ""]%string))).
Defined.

End LastRuns.
